(** * eslint-plugin-checked-error: the [no-floating-error] rule

  A shallow embedding of [src/rules/no-floating-error.mjs] and the
  properties of its three stages: the statement classifier
  ([getStandaloneCall]), the type resolver ([getAwaitedType] and the
  first half of the [ExpressionStatement] listener) and the error-type
  matcher ([flattenTypes], [isErrorOrSubclass],
  [isErrorInterfaceOrBase]).

  The TypeScript type checker and the ESLint host are external to the
  rule.  The checker is a record of the query operations the rule calls;
  type objects are handles into the checker's graph, so that object
  identity (what a JavaScript [Set] compares) is equality of handles and
  the graph may contain cycles.  Functions whose recursion is not guarded
  by the code itself take a [fuel] argument and answer [None] when it
  runs out: [None] stands for a run that does not return. *)

From stdpp Require Import base gmap sets list strings.
From Stdlib Require Import ZArith Lia.

#[local] Set Warnings "-register-all,-clear-no-such-hyp".

Local Open Scope string_scope.
Local Open Scope list_scope.

(** ** Handles *)

(** A [ts.Type] object, by identity. *)
Abbreviation Type_ := positive (only parsing).
(** A node of the TypeScript AST, by identity. *)
Abbreviation TsNode := positive (only parsing).

(** A JavaScript number used as a condition: every value but zero is
    truthy.  The flags of the engine are non-negative 32-bit integers, on
    which [Z.land] is JavaScript's [&]. *)
Definition truthy (n : Z) : bool := negb (Z.eqb n 0).

(** ** The [typescript] module, as far as the rule uses it *)

Module TS.

(** The members of the enums [ts.TypeFlags] and [ts.ObjectFlags] that the
    rule reads.  Their numeric values belong to the [typescript] package
    and are taken as parameters. *)
Record Enums := {
  TypeFlags_Any : Z;
  TypeFlags_Unknown : Z;
  TypeFlags_Never : Z;
  TypeFlags_TypeParameter : Z;
  TypeFlags_Object : Z;
  ObjectFlags_ClassOrInterface : Z
}.

(** [ts.Symbol]: only [getName()] is called. *)
Record Symbol := { getName : string }.

(** The fields and methods of a [ts.Type] object that the rule reads.
    [isUnion] and [isIntersection] are the results of the methods of the
    same name, [types] the members of a union or intersection,
    [getSymbol] is [None] where the method answers [undefined]. *)
Record TypeObject := {
  flags : Z;
  objectFlags : Z;
  isUnion : bool;
  isIntersection : bool;
  types : list Type_;
  getSymbol : option Symbol
}.

(** [ts.TypeChecker] together with the type objects it hands out.
    [getAwaitedType] and [getPromisedTypeOfPromise] are [None] when the
    checker object has no function of that name; an operation returning
    [option] answers [None] for [undefined]. *)
Record TypeChecker := {
  typeObject : Type_ -> TypeObject;
  getAwaitedType : option (Type_ -> option Type_);
  getPromisedTypeOfPromise : option (Type_ -> option Type_);
  getBaseConstraintOfType : Type_ -> option Type_;
  getApparentType : Type_ -> Type_;
  getBaseTypes : Type_ -> option (list Type_);
  getTypeAtLocation : TsNode -> Type_
}.

End TS.

(** ** The ESTree syntax the rule looks at *)

Inductive Expression :=
| CallExpression (range : nat * nat) (callee : Expression) (args : list Expression)
| AwaitExpression (arg : option Expression)
| MemberExpression (object property : Expression)
| ChainExpression (inner : Expression)
| ConditionalExpression (test consequent alternate : Expression)
| SequenceExpression (expressions : list Expression)
| AssignmentExpression (left right : Expression)
| TSAsExpression (inner : Expression)
| TSNonNullExpression (inner : Expression)
| Identifier (name : string)
| Literal (raw : string).

(** [expr.type] *)
Definition type (expr : Expression) : string :=
match expr with
| CallExpression _ _ _ => "CallExpression"
| AwaitExpression _ => "AwaitExpression"
| MemberExpression _ _ => "MemberExpression"
| ChainExpression _ => "ChainExpression"
| ConditionalExpression _ _ _ => "ConditionalExpression"
| SequenceExpression _ => "SequenceExpression"
| AssignmentExpression _ _ => "AssignmentExpression"
| TSAsExpression _ => "TSAsExpression"
| TSNonNullExpression _ => "TSNonNullExpression"
| Identifier _ => "Identifier"
| Literal _ => "Literal"
end.

(** [expr.argument]: present on an [AwaitExpression] only. *)
Definition argument (expr : Expression) : option Expression :=
match expr with
| AwaitExpression arg => arg
| _ => None
end.

(** An [ExpressionStatement] node. *)
Record ExpressionStatement := {
expression : Expression;
statementRange : nat * nat
}.

(** The statements of a file.  Only [ExpressionStatement] nodes reach the
  rule; the others stand for the places where a call result is used. *)
Inductive Statement :=
| SExpressionStatement (node : ExpressionStatement)
| SReturnStatement (arg : option Expression)
| SThrowStatement (arg : Expression)
| SVariableDeclaration (kind name : string) (init : option Expression)
| SIfStatement (test : Expression) (consequent : Statement) (alternate : option Statement)
| SBlockStatement (body : list Statement).

(** The parser services of typescript-eslint. *)
Record ParserServices := {
esTreeNodeToTSNodeMap : Expression -> TsNode;
program_getTypeChecker : TS.TypeChecker
}.

(** What [context.report] receives. *)
Record Diagnostic := {
node : ExpressionStatement;
messageId : string
}.

(** ** The rule *)

Section Rule.

Context (ts : TS.Enums).

(** [getAwaitedType(checker, type)], lines 25-41. *)
Definition getAwaitedType (checker : TS.TypeChecker) (type : Type_) : Type_ :=
  match TS.getAwaitedType checker with
  | Some getAwaitedType_ =>
      let awaited := getAwaitedType_ type in
      default type awaited
  | None =>
      match TS.getPromisedTypeOfPromise checker with
      | Some getPromisedTypeOfPromise_ =>
          let promised := getPromisedTypeOfPromise_ type in
          default type promised
      | None => type
      end
  end.

(** [Array.prototype.flatMap] with a callback that may fail to return. *)
Fixpoint flatMap {A B} (f : A -> option (list B)) (l : list A) : option (list B) :=
  match l with
  | [] => Some []
  | x :: l' =>
      match f x with
      | None => None
      | Some ys =>
          match flatMap f l' with
          | None => None
          | Some zs => Some (ys ++ zs)
          end
      end
  end.

(** [flattenTypes(checker, type)], lines 50-61.  The recursion follows
    the members of unions and intersections and the constraints of type
    parameters, with no guard of its own. *)
Fixpoint flattenTypes (fuel : nat) (checker : TS.TypeChecker) (type : Type_)
  : option (list Type_) :=
  match fuel with
  | O => None
  | S fuel' =>
      let o := TS.typeObject checker type in
      if TS.isUnion o then flatMap (flattenTypes fuel' checker) (TS.types o)
      else if TS.isIntersection o then flatMap (flattenTypes fuel' checker) (TS.types o)
      else if truthy (Z.land (TS.flags o) (TS.TypeFlags_TypeParameter ts)) then
        match TS.getBaseConstraintOfType checker type with
        | Some constraint => flattenTypes fuel' checker constraint
        | None => Some [type]
        end
      else Some [type]
  end.

(** The loop [for (const b of bases)] of lines 110-112, over a walk
    [rec] that returns its verdict and the [seen] set as it left it. *)
Fixpoint forBases (rec : Type_ -> gset Type_ -> option (bool * gset Type_))
    (bases : list Type_) (seen : gset Type_) : option (bool * gset Type_) :=
  match bases with
  | [] => Some (false, seen)
  | b :: bases' =>
      match rec b seen with
      | None => None
      | Some (true, seen') => Some (true, seen')
      | Some (false, seen') => forBases rec bases' seen'
      end
  end.

(** [isErrorInterfaceOrBase(checker, type, seen)], lines 94-117.  [seen]
    is one mutable [Set] shared by the whole walk, so every call hands it
    back. *)
Fixpoint isErrorInterfaceOrBase (fuel : nat) (checker : TS.TypeChecker)
    (type : Type_) (seen : gset Type_) : option (bool * gset Type_) :=
  match fuel with
  | O => None
  | S fuel' =>
      if bool_decide (type ∈ seen) then Some (false, seen)
      else
        let seen := seen ∪ {[type]} in
        let o := TS.typeObject checker type in
        let symbol := TS.getSymbol o in
        if match symbol with
           | Some symbol => String.eqb (TS.getName symbol) "Error"
           | None => false
           end
        then Some (true, seen)
        else if truthy (Z.land (TS.flags o) (TS.TypeFlags_Object ts)) then
          if truthy (Z.land (TS.objectFlags o) (TS.ObjectFlags_ClassOrInterface ts)) then
            let bases := default [] (TS.getBaseTypes checker type) in
            forBases (isErrorInterfaceOrBase fuel' checker) bases seen
          else Some (false, seen)
        else Some (false, seen)
  end.

(** The loop [for (const t of parts)] of lines 73-81; each leaf is walked
    with a [new Set()]. *)
Fixpoint forParts (fuel : nat) (checker : TS.TypeChecker) (parts : list Type_)
  : option bool :=
  match parts with
  | [] => Some false
  | t :: parts' =>
      let o := TS.typeObject checker t in
      if truthy (Z.land (TS.flags o) (TS.TypeFlags_Any ts)) then forParts fuel checker parts'
      else if truthy (Z.land (TS.flags o) (TS.TypeFlags_Unknown ts)) then forParts fuel checker parts'
      else if truthy (Z.land (TS.flags o) (TS.TypeFlags_Never ts)) then forParts fuel checker parts'
      else
        let apparent := TS.getApparentType checker t in
        match isErrorInterfaceOrBase fuel checker apparent ∅ with
        | None => None
        | Some (true, _) => Some true
        | Some (false, _) => forParts fuel checker parts'
        end
  end.

(** [isErrorOrSubclass(checker, type)], lines 70-84. *)
Definition isErrorOrSubclass (fuel : nat) (checker : TS.TypeChecker) (type : Type_)
  : option bool :=
  match flattenTypes fuel checker type with
  | None => None
  | Some parts => forParts fuel checker parts
  end.

(** The object returned by [getStandaloneCall]. *)
Record StandaloneCall := { call : Expression; isAwait : bool }.

(** [getStandaloneCall(expr)], lines 127-138. *)
Definition getStandaloneCall (expr : Expression) : option StandaloneCall :=
  if String.eqb (type expr) "CallExpression" then Some {| call := expr; isAwait := false |}
  else
    if String.eqb (type expr) "AwaitExpression" then
      match argument expr with
      | Some arg =>
          if String.eqb (type arg) "CallExpression"
          then Some {| call := arg; isAwait := true |}
          else None
      | None => None
      end
    else None.

(** The listener [ExpressionStatement(node)] of lines 164-184, in the
    closure of [create]: [services] and [checker] are the constants of
    lines 157-158.  [reports] is what [context.report] has collected so
    far; the listener hands back the collection as it leaves it. *)
Definition ExpressionStatement_listener (fuel : nat) (services : ParserServices)
    (node : ExpressionStatement) (reports : list Diagnostic)
  : option (list Diagnostic) :=
  let checker := program_getTypeChecker services in
  match getStandaloneCall (expression node) with
  | None => Some reports
  | Some extracted =>
      let tsCall := esTreeNodeToTSNodeMap services (call extracted) in
      let returnType := TS.getTypeAtLocation checker tsCall in
      let returnType :=
        if isAwait extracted then getAwaitedType checker returnType else returnType in
      match isErrorOrSubclass fuel checker returnType with
      | None => None
      | Some false => Some reports
      | Some true =>
          Some (reports ++ [ {| node := node; messageId := "requireErrorCheck" |} ])
      end
  end.

End Rule.

(** ** The walk with a log of the inspected handles

  [isErrorInterfaceOrBase_log] is [isErrorInterfaceOrBase] with one more
  output: the handles on which the body ran past the [seen.has] guard of
  line 95, in order.  The log is not part of the program; it is what the
  statements about "inspected at most once" speak of. *)

Section Log.

Context (ts : TS.Enums).

Fixpoint forBases_log
    (rec : Type_ -> gset Type_ -> option (bool * gset Type_ * list Type_))
    (bases : list Type_) (seen : gset Type_) : option (bool * gset Type_ * list Type_) :=
  match bases with
  | [] => Some (false, seen, [])
  | b :: bases' =>
      match rec b seen with
      | None => None
      | Some (true, seen', log) => Some (true, seen', log)
      | Some (false, seen', log) =>
          match forBases_log rec bases' seen' with
          | None => None
          | Some (r, seen'', log') => Some (r, seen'', log ++ log')
          end
      end
  end.

Fixpoint isErrorInterfaceOrBase_log (fuel : nat) (checker : TS.TypeChecker)
    (type : Type_) (seen : gset Type_) : option (bool * gset Type_ * list Type_) :=
  match fuel with
  | O => None
  | S fuel' =>
      if bool_decide (type ∈ seen) then Some (false, seen, [])
      else
        let seen := seen ∪ {[type]} in
        let o := TS.typeObject checker type in
        let symbol := TS.getSymbol o in
        if match symbol with
           | Some symbol => String.eqb (TS.getName symbol) "Error"
           | None => false
           end
        then Some (true, seen, [type])
        else if truthy (Z.land (TS.flags o) (TS.TypeFlags_Object ts)) then
          if truthy (Z.land (TS.objectFlags o) (TS.ObjectFlags_ClassOrInterface ts)) then
            let bases := default [] (TS.getBaseTypes checker type) in
            match forBases_log (isErrorInterfaceOrBase_log fuel' checker) bases seen with
            | None => None
            | Some (r, seen', log) => Some (r, seen', type :: log)
            end
          else Some (false, seen, [type])
        else Some (false, seen, [type])
  end.



End Log.

(** ** The vocabulary of the specification *)

Section Vocabulary.

Context (ts : TS.Enums).

(** The matcher under the name the specification gives it. *)
Definition mayBeError := isErrorOrSubclass ts.

(** The resolver of the specification, [resolveResultType(call, isAwaited)]:
    the type of the call at its location, unwrapped once when awaited.
    Written after section 4.2; the listener has this code inline
    (lines 170-176). *)
Definition resolveResultType (services : ParserServices) (call : Expression)
    (isAwaited : bool) : Type_ :=
  let checker := program_getTypeChecker services in
  let t := TS.getTypeAtLocation checker (esTreeNodeToTSNodeMap services call) in
  if isAwaited then getAwaitedType checker t else t.

(** The classifier as section 4.1 words it: two recognised shapes, every
    other shape is none. *)
Definition classify (statementExpression : Expression) : option StandaloneCall :=
  match statementExpression with
  | CallExpression _ _ _ =>
      Some {| call := statementExpression; isAwait := false |}
  | AwaitExpression (Some (CallExpression r c a)) =>
      Some {| call := CallExpression r c a; isAwait := true |}
  | _ => None
  end.

(** The unwrapping of section 4.2 as the two-tier fallback: the preferred
    operation, then the promised-type extraction, then the identity; an
    operation that is used and yields nothing gives the original type. *)
Definition unwrapAwaited (checker : TS.TypeChecker) (t : Type_) : Type_ :=
  match TS.getAwaitedType checker, TS.getPromisedTypeOfPromise checker with
  | Some awaitedOf, _ => match awaitedOf t with Some t' => t' | None => t end
  | None, Some promisedOf => match promisedOf t with Some t' => t' | None => t end
  | None, None => t
  end.

(** The declared name of a type is ['Error']. *)
Definition isNamedError (checker : TS.TypeChecker) (t : Type_) : bool :=
  match TS.getSymbol (TS.typeObject checker t) with
  | Some symbol => String.eqb (TS.getName symbol) "Error"
  | None => false
  end.

(** [b] is one of the declared base types of [t]. *)
Definition baseOf (checker : TS.TypeChecker) (t b : Type_) : Prop :=
  ∃ bases, TS.getBaseTypes checker t = Some bases ∧ b ∈ bases.

(** [t] is an object type whose object flags mark a class or interface. *)
Definition isClassOrInterface (checker : TS.TypeChecker) (t : Type_) : bool :=
  let o := TS.typeObject checker t in
  truthy (Z.land (TS.flags o) (TS.TypeFlags_Object ts))
  && truthy (Z.land (TS.objectFlags o) (TS.ObjectFlags_ClassOrInterface ts)).

(** [t] carries none of the flags [Any], [Unknown], [Never]. *)
Definition isInformative (checker : TS.TypeChecker) (t : Type_) : bool :=
  let o := TS.typeObject checker t in
  negb (truthy (Z.land (TS.flags o) (TS.TypeFlags_Any ts)))
  && negb (truthy (Z.land (TS.flags o) (TS.TypeFlags_Unknown ts)))
  && negb (truthy (Z.land (TS.flags o) (TS.TypeFlags_Never ts))).

(** A type that [flattenTypes] does not take apart: neither union nor
    intersection nor flagged as a type parameter. *)
Definition isPlain (checker : TS.TypeChecker) (t : Type_) : bool :=
  let o := TS.typeObject checker t in
  negb (TS.isUnion o) && negb (TS.isIntersection o)
  && negb (truthy (Z.land (TS.flags o) (TS.TypeFlags_TypeParameter ts))).


(** The same, where every type a step is taken from is a class or
    interface object type: the chains the walk follows. *)
Inductive reachesError (checker : TS.TypeChecker) : Type_ -> Prop :=
| reachesError_here t :
    isNamedError checker t = true -> reachesError checker t
| reachesError_base t b :
    isClassOrInterface checker t = true ->
    baseOf checker t b -> reachesError checker b -> reachesError checker t.

(** A set of handles that the declared base types do not leave. *)
Definition closedUnderBases (checker : TS.TypeChecker) (U : gset Type_) : Prop :=
  ∀ t b, t ∈ U -> baseOf checker t b -> b ∈ U.

(** Between [seen] and [seen']: every handle added is not named
    ['Error'], and if the walk descends from it, its base types are in
    [seen'] too. *)
Definition explored (checker : TS.TypeChecker) (seen seen' : gset Type_) : Prop :=
  ∀ u, u ∈ seen' -> u ∉ seen ->
    isNamedError checker u = false ∧
    (isClassOrInterface checker u = true -> ∀ b, baseOf checker u b -> b ∈ seen').

(** Dropping the log of a logged walk. *)
Definition eraseLog (x : bool * gset Type_ * list Type_) : bool * gset Type_ :=
  let '(r, seen, _) := x in (r, seen).

(** What a log says about the [seen] set: the logged handles were not
    in it before, are pairwise distinct, and are exactly what was added. *)
Definition logged (seen seen' : gset Type_) (log : list Type_) : Prop :=
  NoDup log ∧ (∀ u, u ∈ log -> u ∉ seen) ∧ seen' = seen ∪ list_to_set log.


(** The statement uses a value instead of dropping it: it returns it,
    throws it, binds it in a declaration, or is an expression statement
    that assigns it. *)
Definition usesResult (s : Statement) : bool :=
  match s with
  | SReturnStatement _ | SThrowStatement _ | SVariableDeclaration _ _ _ => true
  | SExpressionStatement node =>
      match expression node with
      | AssignmentExpression _ _ => true
      | _ => false
      end
  | _ => false
  end.

(** The diagnostic of the rule at a statement. *)
Definition requireErrorCheckAt (node : ExpressionStatement) : Diagnostic :=
  {| node := node; messageId := "requireErrorCheck" |}.

(** [closedUnderBases] for the handles of a list, as a check that runs. *)
Definition closedUnderBasesb (checker : TS.TypeChecker) (l : list Type_) : bool :=
  forallb (λ t, forallb (λ b, bool_decide (b ∈ l)) (default [] (TS.getBaseTypes checker t))) l.


(** Two optional operations of a checker that are present together and
    answer alike. *)
Definition sameOperation (f g : option (Type_ -> option Type_)) : Prop :=
  match f, g with
  | Some f, Some g => ∀ t, f t = g t
  | None, None => True
  | _, _ => False
  end.

(** Two checkers that answer every query of the rule alike. *)
Record sameAnswers (c1 c2 : TS.TypeChecker) : Prop := {
  same_typeObject : ∀ t, TS.typeObject c1 t = TS.typeObject c2 t;
  same_getAwaitedType : sameOperation (TS.getAwaitedType c1) (TS.getAwaitedType c2);
  same_getPromisedTypeOfPromise :
    sameOperation (TS.getPromisedTypeOfPromise c1) (TS.getPromisedTypeOfPromise c2);
  same_getBaseConstraintOfType :
    ∀ t, TS.getBaseConstraintOfType c1 t = TS.getBaseConstraintOfType c2 t;
  same_getApparentType : ∀ t, TS.getApparentType c1 t = TS.getApparentType c2 t;
  same_getBaseTypes : ∀ t, TS.getBaseTypes c1 t = TS.getBaseTypes c2 t;
  same_getTypeAtLocation : ∀ n, TS.getTypeAtLocation c1 n = TS.getTypeAtLocation c2 n
}.

(** Two parser services that answer alike. *)
Definition sameServices (s1 s2 : ParserServices) : Prop :=
  (∀ e, esTreeNodeToTSNodeMap s1 e = esTreeNodeToTSNodeMap s2 e)
  ∧ sameAnswers (program_getTypeChecker s1) (program_getTypeChecker s2).

End Vocabulary.

(** ** The host *)

Section Host.

Context (ts : TS.Enums).

(** The listener object that [create] returns: its only key is
    [ExpressionStatement]. *)
Record RuleListener := {
  onExpressionStatement : ExpressionStatement -> list Diagnostic -> option (list Diagnostic)
}.

(** [create(context)], lines 156-186. *)
Definition create (fuel : nat) (services : ParserServices) : RuleListener :=
  {| onExpressionStatement := ExpressionStatement_listener ts fuel services |}.

(** Modelled from the spec: the lint engine that drives the rule is not
    part of the repository.  Section 6 has it call the registered callback
    once per expression-statement node, with a reporting handle; a node of
    another type finds no callback in the listener object. *)
Definition enterNode (listener : RuleListener) (s : Statement)
    (reports : list Diagnostic) : option (list Diagnostic) :=
  match s with
  | SExpressionStatement node => onExpressionStatement listener node reports
  | _ => Some reports
  end.

(** Modelled from the spec: the depth-first traversal of section 6, as
    the statement nodes at and below a statement in the order the host
    enters them. *)
Fixpoint nodesOf (s : Statement) : list Statement :=
  s ::
  match s with
  | SIfStatement _ consequent alternate =>
      nodesOf consequent ++
      match alternate with Some a => nodesOf a | None => [] end
  | SBlockStatement body => flat_map nodesOf body
  | _ => []
  end.

(** Modelled from the spec: the host entering the nodes one after the
    other, the reports passing from one to the next. *)
Fixpoint enterNodes (listener : RuleListener) (nodes : list Statement)
    (reports : list Diagnostic) : option (list Diagnostic) :=
  match nodes with
  | [] => Some reports
  | s :: nodes' =>
      match enterNode listener s reports with
      | None => None
      | Some reports' => enterNodes listener nodes' reports'
      end
  end.

(** Modelled from the spec: one run of the rule over a file, starting
    from the reports collected so far. *)
Definition lintFile (fuel : nat) (services : ParserServices) (file : list Statement)
    (reports : list Diagnostic) : option (list Diagnostic) :=
  enterNodes (create fuel services) (flat_map nodesOf file) reports.

End Host.

(** ** The rest of the rule object and further vocabulary *)

(** [meta.messages] of the rule object, lines 150-153: the message ids the
    rule declares, with their texts. *)
Definition meta_messages : gmap string string :=
  {[ "requireErrorCheck" :=
       "This call can return an Error. Don't ignore its result — return it, throw it, or check/handle the error." ]}.

Section Leaves.

Context (ts : TS.Enums) (checker : TS.TypeChecker).

(** [p] is a leaf below [t]: what is left of [t] when unions and
    intersections are replaced by their members and type parameters by
    their constraints, as long as there is one. *)
Inductive leafOf : Type_ -> Type_ -> Prop :=
| leafOf_self t :
    TS.isUnion (TS.typeObject checker t) = false ->
    TS.isIntersection (TS.typeObject checker t) = false ->
    (truthy (Z.land (TS.flags (TS.typeObject checker t)) (TS.TypeFlags_TypeParameter ts)) = false
     ∨ TS.getBaseConstraintOfType checker t = None) ->
    leafOf t t
| leafOf_member t m p :
    (TS.isUnion (TS.typeObject checker t) = true
     ∨ TS.isIntersection (TS.typeObject checker t) = true) ->
    m ∈ TS.types (TS.typeObject checker t) ->
    leafOf m p -> leafOf t p
| leafOf_constraint t c p :
    TS.isUnion (TS.typeObject checker t) = false ->
    TS.isIntersection (TS.typeObject checker t) = false ->
    truthy (Z.land (TS.flags (TS.typeObject checker t)) (TS.TypeFlags_TypeParameter ts)) = true ->
    TS.getBaseConstraintOfType checker t = Some c ->
    leafOf c p -> leafOf t p.

(** What the log of a walk looks like: a walk that matches has inspected
    a type named ['Error'] last and none before; a walk that does not
    match has inspected none. *)
Definition stopsAtError (r : bool) (log : list Type_) : Prop :=
  if r then ∃ l e, log = l ++ [e] ∧ isNamedError checker e = true
                   ∧ ∀ x, x ∈ l -> isNamedError checker x = false
  else ∀ x, x ∈ log -> isNamedError checker x = false.

End Leaves.

(** The checker [checker] with other operations for unwrapping awaited
    types, or none. *)
Definition setAwaitOperations (awaited promised : option (Type_ -> option Type_))
    (checker : TS.TypeChecker) : TS.TypeChecker :=
  {| TS.typeObject := TS.typeObject checker;
     TS.getAwaitedType := awaited;
     TS.getPromisedTypeOfPromise := promised;
     TS.getBaseConstraintOfType := TS.getBaseConstraintOfType checker;
     TS.getApparentType := TS.getApparentType checker;
     TS.getBaseTypes := TS.getBaseTypes checker;
     TS.getTypeAtLocation := TS.getTypeAtLocation checker |}.

Definition setChecker (checker : TS.TypeChecker) (services : ParserServices)
  : ParserServices :=
  {| esTreeNodeToTSNodeMap := esTreeNodeToTSNodeMap services;
     program_getTypeChecker := checker |}.

(** Two checkers with the same type objects whose declared base types
    are the same up to their order and repetitions. *)
Definition sameBasesUpToOrder (c1 c2 : TS.TypeChecker) : Prop :=
  (∀ t, TS.typeObject c1 t = TS.typeObject c2 t)
  ∧ (∀ t b, baseOf c1 t b ↔ baseOf c2 t b).

(** ** A sample type graph

  The enum values are those of TypeScript 5; the graph holds the types of
  the scenarios of section 8 and a few more. *)

Module Sample.

Definition typescript : TS.Enums :=
  {| TS.TypeFlags_Any := 1;
     TS.TypeFlags_Unknown := 2;
     TS.TypeFlags_Never := 131072;
     TS.TypeFlags_TypeParameter := 262144;
     TS.TypeFlags_Object := 524288;
     TS.ObjectFlags_ClassOrInterface := 3 |}.

Definition named (flags objectFlags : Z) (name : string) : TS.TypeObject :=
  {| TS.flags := flags; TS.objectFlags := objectFlags;
     TS.isUnion := false; TS.isIntersection := false; TS.types := [];
     TS.getSymbol := Some {| TS.getName := name |} |}.

Definition anonymous (flags : Z) : TS.TypeObject :=
  {| TS.flags := flags; TS.objectFlags := 0;
     TS.isUnion := false; TS.isIntersection := false; TS.types := [];
     TS.getSymbol := None |}.

Definition union (members : list Type_) : TS.TypeObject :=
  {| TS.flags := 1048576; TS.objectFlags := 0;
     TS.isUnion := true; TS.isIntersection := false; TS.types := members;
     TS.getSymbol := None |}.

(** Handles of the sample graph. *)
Definition tError : Type_ := 1%positive.        (* interface Error *)
Definition tTrue : Type_ := 2%positive.         (* the literal type true *)
Definition tBoolean : Type_ := 3%positive.      (* interface Boolean *)
Definition tErrorOrTrue : Type_ := 4%positive.  (* Error | true *)
Definition tMyError : Type_ := 5%positive.      (* class MyError extends Error *)
Definition tNull : Type_ := 6%positive.         (* null *)
Definition tMyErrorOrNull : Type_ := 7%positive. (* MyError | null *)
Definition tAny : Type_ := 8%positive.
Definition tUnknown : Type_ := 9%positive.
Definition tNever : Type_ := 10%positive.
Definition tPromise : Type_ := 11%positive.     (* Promise<Error | string> *)
Definition tString : Type_ := 12%positive.      (* string *)
Definition tErrorOrString : Type_ := 13%positive. (* Error | string *)
Definition tStringObject : Type_ := 14%positive. (* interface String *)
Definition tT : Type_ := 15%positive.           (* type parameter T, no constraint *)
Definition tU : Type_ := 16%positive.           (* type parameter U extends MyError *)
Definition tA : Type_ := 17%positive.           (* interface A extends B *)
Definition tB : Type_ := 18%positive.           (* interface B extends A *)
Definition tX : Type_ := 19%positive.           (* class X extends Base *)
Definition tY : Type_ := 20%positive.           (* class Y extends Base *)
Definition tBase : Type_ := 21%positive.        (* class Base *)
Definition tBox : Type_ := 23%positive.         (* Box<number>, class Box<T> extends Error *)

Definition typeObject (t : Type_) : TS.TypeObject :=
  match t with
  | 1 => named 524288 2 "Error"
  | 2 => anonymous 512
  | 3 => named 524288 2 "Boolean"
  | 4 => union [tError; tTrue]
  | 5 => named 524288 5 "MyError"
  | 6 => anonymous 65536
  | 7 => union [tMyError; tNull]
  | 8 => anonymous 1
  | 9 => anonymous 2
  | 10 => anonymous 131072
  | 11 => named 524288 4 "Promise"
  | 12 => anonymous 4
  | 13 => union [tError; tString]
  | 14 => named 524288 2 "String"
  | 15 => named 262144 0 "T"
  | 16 => named 262144 0 "U"
  | 17 => named 524288 2 "A"
  | 18 => named 524288 2 "B"
  | 19 => named 524288 5 "X"
  | 20 => named 524288 5 "Y"
  | 21 => named 524288 5 "Base"
  | 22 => union [tX; tY]
  | 23 => named 524288 4 "Box"
  | _ => anonymous 1
  end%positive.

Definition getBaseTypes (t : Type_) : option (list Type_) :=
  match t with
  | 5 => Some [tError]
  | 17 => Some [tB]
  | 18 => Some [tA]
  | 19 => Some [tBase]
  | 20 => Some [tBase]
  | 23 => Some [tError]
  | _ => Some []
  end%positive.

Definition getApparentType (t : Type_) : Type_ :=
  match t with
  | 2 => tBoolean
  | 12 => tStringObject
  | 15 => tUnknown
  | 16 => tMyError
  | _ => t
  end%positive.

Definition getBaseConstraintOfType (t : Type_) : option Type_ :=
  match t with
  | 16 => Some tMyError
  | _ => None
  end%positive.

Definition awaitedOf (t : Type_) : option Type_ :=
  match t with
  | 11 => Some tErrorOrString
  | _ => Some t
  end%positive.

(** The result type of a call expression is the handle numbered by the
    TypeScript node of the call. *)
Definition checker : TS.TypeChecker :=
  {| TS.typeObject := typeObject;
     TS.getAwaitedType := Some awaitedOf;
     TS.getPromisedTypeOfPromise := None;
     TS.getBaseConstraintOfType := getBaseConstraintOfType;
     TS.getApparentType := getApparentType;
     TS.getBaseTypes := getBaseTypes;
     TS.getTypeAtLocation := fun n => n |}.

(** An older engine: no [getAwaitedType], only the promised-type query. *)
Definition olderChecker : TS.TypeChecker :=
  {| TS.typeObject := typeObject;
     TS.getAwaitedType := None;
     TS.getPromisedTypeOfPromise :=
       Some (fun t => match t with 11%positive => Some tErrorOrString | _ => None end);
     TS.getBaseConstraintOfType := getBaseConstraintOfType;
     TS.getApparentType := getApparentType;
     TS.getBaseTypes := getBaseTypes;
     TS.getTypeAtLocation := fun n => n |}.

(** An engine with neither operation. *)
Definition bareChecker : TS.TypeChecker :=
  {| TS.typeObject := typeObject;
     TS.getAwaitedType := None;
     TS.getPromisedTypeOfPromise := None;
     TS.getBaseConstraintOfType := getBaseConstraintOfType;
     TS.getApparentType := getApparentType;
     TS.getBaseTypes := getBaseTypes;
     TS.getTypeAtLocation := fun n => n |}.

(** A call [name()] whose TypeScript node is [n]. *)
Definition callOf (name : string) (n : TsNode) : Expression :=
  CallExpression (Pos.to_nat n, Pos.to_nat n + 3)%nat (Identifier name) [].

Definition nodeMap (e : Expression) : TsNode :=
  match e with
  | CallExpression (start, _) _ _ => Pos.of_nat start
  | _ => 1%positive
  end.

Definition services : ParserServices :=
  {| esTreeNodeToTSNodeMap := nodeMap; program_getTypeChecker := checker |}.

Definition statement (e : Expression) : ExpressionStatement :=
  {| expression := e; statementRange := (0, 0)%nat |}.

Definition requireErrorCheck (e : Expression) : Diagnostic :=
  {| node := statement e; messageId := "requireErrorCheck" |}.

(** The handles of the sample graph. *)
Definition handles : list Type_ := map Pos.of_nat (seq 1 23).

Definition universe : gset Type_ := list_to_set handles.


(** The sample checker with two base types for [MyError], in either
    order. *)
Definition twoBases (swap : bool) : TS.TypeChecker :=
  {| TS.typeObject := typeObject;
     TS.getAwaitedType := Some awaitedOf;
     TS.getPromisedTypeOfPromise := None;
     TS.getBaseConstraintOfType := getBaseConstraintOfType;
     TS.getApparentType := getApparentType;
     TS.getBaseTypes :=
       fun t => if Pos.eqb t tMyError
                then Some (if swap then [tError; tA] else [tA; tError])
                else getBaseTypes t;
     TS.getTypeAtLocation := fun n => n |}.

End Sample.

Example scenario_A :
ExpressionStatement_listener Sample.typescript 3 Sample.services
  (Sample.statement (Sample.callOf "f" Sample.tErrorOrTrue)) []
= Some [Sample.requireErrorCheck (Sample.callOf "f" Sample.tErrorOrTrue)].
Proof. vm_compute. reflexivity. Qed.

Example scenario_B :
  lintFile Sample.typescript 3 Sample.services
    [SVariableDeclaration "const" "r" (Some (Sample.callOf "f" Sample.tErrorOrTrue));
     SIfStatement (Identifier "r") (SThrowStatement (Identifier "r")) None] []
  = Some [].
Proof. vm_compute. reflexivity. Qed.

Example scenario_C :
  lintFile Sample.typescript 3 Sample.services
    [SReturnStatement (Some (Sample.callOf "f" Sample.tErrorOrTrue))] []
  = Some [].
Proof. vm_compute. reflexivity. Qed.

Example scenario_D :
ExpressionStatement_listener Sample.typescript 3 Sample.services
  (Sample.statement (AwaitExpression (Some (Sample.callOf "g" Sample.tPromise)))) []
= Some [Sample.requireErrorCheck (AwaitExpression (Some (Sample.callOf "g" Sample.tPromise)))].
Proof. vm_compute. reflexivity. Qed.

Example scenario_E :
ExpressionStatement_listener Sample.typescript 3 Sample.services
  (Sample.statement (Sample.callOf "h" Sample.tMyErrorOrNull)) []
= Some [Sample.requireErrorCheck (Sample.callOf "h" Sample.tMyErrorOrNull)].
Proof. vm_compute. reflexivity. Qed.

Example scenario_F :
ExpressionStatement_listener Sample.typescript 3 Sample.services
  (Sample.statement (Sample.callOf "k" Sample.tUnknown)) []
= Some [].
Proof. vm_compute. reflexivity. Qed.

Example cyclic_bases_return :
isErrorOrSubclass Sample.typescript 3 Sample.checker Sample.tA = Some false.
Proof. vm_compute. reflexivity. Qed.

(** ** Fuel

  More fuel never changes an answer: a run that returns with some fuel
  returns the same with any larger amount. *)

Section Fuel.

Context (ts : TS.Enums).

Lemma flatMap_mono {A B} (f g : A -> option (list B)) (l : list A) (r : list B) :
  (∀ x y, f x = Some y -> g x = Some y) ->
  flatMap f l = Some r -> flatMap g l = Some r.
Proof.
  intros Hfg. revert r. induction l as [|x l IH]; intros r; simpl; [done|].
  destruct (f x) as [ys|] eqn:Hx; [|done].
  rewrite (Hfg _ _ Hx).
  destruct (flatMap f l) as [zs|]; [|done].
  intros [= <-]. by rewrite (IH zs).
Qed.

Lemma flattenTypes_S (fuel : nat) checker t parts :
  flattenTypes ts fuel checker t = Some parts ->
  flattenTypes ts (S fuel) checker t = Some parts.
Proof.
  revert t parts. induction fuel as [|fuel IH]; intros t parts; [done|].
  intros H. simpl in H. cbn [flattenTypes].
  destruct (TS.isUnion _); [by apply (flatMap_mono _ _ _ _ (IH))|].
  destruct (TS.isIntersection _); [by apply (flatMap_mono _ _ _ _ (IH))|].
  destruct (truthy _); [|done].
  destruct (TS.getBaseConstraintOfType _ _); [by apply IH|done].
Qed.

Lemma flattenTypes_mono (fuel fuel' : nat) checker t parts :
  (fuel <= fuel')%nat ->
  flattenTypes ts fuel checker t = Some parts ->
  flattenTypes ts fuel' checker t = Some parts.
Proof.
  induction 1 as [|fuel' _ IH]; [done|].
  intros H. by apply flattenTypes_S, IH.
Qed.



(** A type parameter that is its own constraint: the flattening has no
    guard and does not return. *)
Lemma flattenTypes_self_constraint checker t (fuel : nat) :
  TS.isUnion (TS.typeObject checker t) = false ->
  TS.isIntersection (TS.typeObject checker t) = false ->
  truthy (Z.land (TS.flags (TS.typeObject checker t)) (TS.TypeFlags_TypeParameter ts)) = true ->
  TS.getBaseConstraintOfType checker t = Some t ->
  flattenTypes ts fuel checker t = None.
Proof.
  intros Hu Hi Hp Hc. induction fuel as [|fuel IH]; [done|].
  cbn [flattenTypes]. by rewrite Hu, Hi, Hp, Hc.
Qed.

Lemma forBases_mono rec rec' bases seen r :
  (∀ b s y, rec b s = Some y -> rec' b s = Some y) ->
  forBases rec bases seen = Some r -> forBases rec' bases seen = Some r.
Proof.
  intros Hrec. revert seen. induction bases as [|b bases IH]; intros seen; simpl; [done|].
  destruct (rec b seen) as [[[] s]|] eqn:Hb; [| |done]; rewrite (Hrec _ _ _ Hb); [done|].
  apply IH.
Qed.

Lemma isErrorInterfaceOrBase_S (fuel : nat) checker t seen r :
  isErrorInterfaceOrBase ts fuel checker t seen = Some r ->
  isErrorInterfaceOrBase ts (S fuel) checker t seen = Some r.
Proof.
  revert t seen r. induction fuel as [|fuel IH]; intros t seen r; [done|].
  intros H. simpl in H. cbn [isErrorInterfaceOrBase].
  destruct (bool_decide _); [done|].
  destruct (match TS.getSymbol _ with Some _ => _ | None => _ end); [done|].
  destruct (truthy _); [|done].
  destruct (truthy _); [|done].
  revert H. apply forBases_mono. intros b s y. apply IH.
Qed.

Lemma isErrorInterfaceOrBase_mono (fuel fuel' : nat) checker t seen r :
  (fuel <= fuel')%nat ->
  isErrorInterfaceOrBase ts fuel checker t seen = Some r ->
  isErrorInterfaceOrBase ts fuel' checker t seen = Some r.
Proof.
  induction 1 as [|fuel' _ IH]; [done|].
  intros H. by apply isErrorInterfaceOrBase_S, IH.
Qed.

Lemma forParts_mono (fuel fuel' : nat) checker parts r :
  (fuel <= fuel')%nat ->
  forParts ts fuel checker parts = Some r ->
  forParts ts fuel' checker parts = Some r.
Proof.
  intros Hle. induction parts as [|t parts IH]; simpl; [done|].
  destruct (truthy _); [done|].
  destruct (truthy _); [done|].
  destruct (truthy _); [done|].
  destruct (isErrorInterfaceOrBase ts fuel _ _ _) as [[[] s]|] eqn:Hw; [| |done];
    rewrite (isErrorInterfaceOrBase_mono _ _ _ _ _ _ Hle Hw); done.
Qed.

Lemma isErrorOrSubclass_mono (fuel fuel' : nat) checker t r :
  (fuel <= fuel')%nat ->
  isErrorOrSubclass ts fuel checker t = Some r ->
  isErrorOrSubclass ts fuel' checker t = Some r.
Proof.
  intros Hle. unfold isErrorOrSubclass.
  destruct (flattenTypes ts fuel _ _) as [parts|] eqn:Hf; [|done].
  rewrite (flattenTypes_mono _ _ _ _ _ Hle Hf). by apply forParts_mono.
Qed.

Lemma listener_mono (fuel fuel' : nat) services node reports r :
  (fuel <= fuel')%nat ->
  ExpressionStatement_listener ts fuel services node reports = Some r ->
  ExpressionStatement_listener ts fuel' services node reports = Some r.
Proof.
  intros Hle. unfold ExpressionStatement_listener.
  destruct (getStandaloneCall _) as [extracted|]; [|done].
  destruct (isErrorOrSubclass ts fuel _ _) as [b|] eqn:Hm; [|done].
  by rewrite (isErrorOrSubclass_mono _ _ _ _ _ Hle Hm).
Qed.

End Fuel.

(** ** The walk over the declared base types *)

Section Walk.

Context (ts : TS.Enums) (checker : TS.TypeChecker).

Lemma isErrorInterfaceOrBase_unfold (fuel : nat) t seen :
  isErrorInterfaceOrBase ts (S fuel) checker t seen =
    if bool_decide (t ∈ seen) then Some (false, seen)
    else if isNamedError checker t then Some (true, seen ∪ {[t]})
    else if isClassOrInterface ts checker t
         then forBases (isErrorInterfaceOrBase ts fuel checker)
                (default [] (TS.getBaseTypes checker t)) (seen ∪ {[t]})
         else Some (false, seen ∪ {[t]}).
Proof.
  cbn [isErrorInterfaceOrBase]. unfold isNamedError, isClassOrInterface.
  destruct (bool_decide _); [done|].
  destruct (match TS.getSymbol _ with Some _ => _ | None => _ end); [done|].
  destruct (truthy (Z.land (TS.flags _) _)); [|done].
  by destruct (truthy (Z.land (TS.objectFlags _) _)).
Qed.

Lemma baseOf_default t b :
  baseOf checker t b ↔ b ∈ default [] (TS.getBaseTypes checker t).
Proof.
  unfold baseOf. destruct (TS.getBaseTypes checker t) as [bases|]; simpl.
  - split; [by intros (? & [= <-] & ?)|eauto].
  - split; [by intros (? & [=] & ?)|by intros ?%elem_of_nil].
Qed.

(** A walk only adds to [seen], and the type it was called on is in
    [seen] when it returns. *)
Lemma forBases_grows rec bases seen r seen' :
  (∀ b s r' s', rec b s = Some (r', s') -> s ⊆ s') ->
  forBases rec bases seen = Some (r, seen') -> seen ⊆ seen'.
Proof.
  intros Hrec. revert seen. induction bases as [|b bases IH]; intros seen; simpl.
  - by intros [= _ <-].
  - destruct (rec b seen) as [[[] s]|] eqn:Hb; [| |done].
    + intros [= _ <-]. eauto.
    + intros H%IH. specialize (Hrec _ _ _ _ Hb). set_solver.
Qed.

Lemma isErrorInterfaceOrBase_grows (fuel : nat) t seen r seen' :
  isErrorInterfaceOrBase ts fuel checker t seen = Some (r, seen') ->
  seen ⊆ seen' ∧ t ∈ seen'.
Proof.
  revert t seen r seen'. induction fuel as [|fuel IH]; intros t seen r seen'; [done|].
  rewrite isErrorInterfaceOrBase_unfold.
  case_bool_decide as Hin; [intros [= _ <-]; set_solver|].
  destruct (isNamedError _ _); [intros [= _ <-]; set_solver|].
  destruct (isClassOrInterface _ _ _); [|intros [= _ <-]; set_solver].
  intros H%forBases_grows; [set_solver|].
  intros b s r' s' Hb. by destruct (IH _ _ _ _ Hb).
Qed.

(** *** Soundness: a match is a chain to a type named ['Error'] *)

Lemma forBases_true rec bases seen seen' :
  forBases rec bases seen = Some (true, seen') ->
  ∃ b s s', b ∈ bases ∧ rec b s = Some (true, s').
Proof.
  revert seen. induction bases as [|b bases IH]; intros seen; simpl; [done|].
  destruct (rec b seen) as [[[] s]|] eqn:Hb; [| |done].
  - intros _. exists b, seen, s. split; [left|done].
  - intros (b' & s1 & s2 & Hin & H)%IH. exists b', s1, s2. split; [by right|done].
Qed.

Lemma isErrorInterfaceOrBase_sound (fuel : nat) t seen seen' :
  isErrorInterfaceOrBase ts fuel checker t seen = Some (true, seen') ->
  reachesError ts checker t.
Proof.
  revert t seen seen'. induction fuel as [|fuel IH]; intros t seen seen'; [done|].
  rewrite isErrorInterfaceOrBase_unfold.
  case_bool_decide; [done|].
  destruct (isNamedError _ _) eqn:Hname; [intros _; by apply reachesError_here|].
  destruct (isClassOrInterface _ _ _) eqn:Hci; [|done].
  intros (b & s & s' & Hb & Hw)%forBases_true.
  eapply reachesError_base; [done|by apply baseOf_default|by eapply IH].
Qed.

(** *** Completeness: a walk that finds nothing has closed the search *)

Lemma explored_trans s1 s2 s3 :
  s2 ⊆ s3 -> explored ts checker s1 s2 -> explored ts checker s2 s3 -> explored ts checker s1 s3.
Proof.
  intros H23 H12 H3 u Hu3 Hu1.
  destruct (decide (u ∈ s2)) as [Hu2|Hu2].
  - destruct (H12 u Hu2 Hu1) as [Hn Hb]. split; [done|].
    intros Hci b Hbase. apply H23. eauto.
  - by apply H3.
Qed.

Lemma forBases_false rec bases seen seen' :
  (∀ b s s', rec b s = Some (false, s') -> s ⊆ s' ∧ b ∈ s' ∧ explored ts checker s s') ->
  forBases rec bases seen = Some (false, seen') ->
  seen ⊆ seen' ∧ (∀ b, b ∈ bases -> b ∈ seen') ∧ explored ts checker seen seen'.
Proof.
  intros Hrec. revert seen. induction bases as [|b bases IH]; intros seen; simpl.
  - intros [= <-]. split; [done|]. split; [by intros ? ?%elem_of_nil|].
    by intros u ? ?.
  - destruct (rec b seen) as [[[] s]|] eqn:Hb; [done| |done].
    intros (Hsub & Hall & Hex)%IH.
    destruct (Hrec _ _ _ Hb) as (Hsub1 & Hb1 & Hex1).
    split; [set_solver|]. split.
    + intros b' [->|Hin]%elem_of_cons; [set_solver|by apply Hall].
    + by apply (explored_trans _ s).
Qed.

Lemma isErrorInterfaceOrBase_false (fuel : nat) t seen seen' :
  isErrorInterfaceOrBase ts fuel checker t seen = Some (false, seen') ->
  seen ⊆ seen' ∧ t ∈ seen' ∧ explored ts checker seen seen'.
Proof.
  revert t seen seen'. induction fuel as [|fuel IH]; intros t seen seen'; [done|].
  rewrite isErrorInterfaceOrBase_unfold.
  case_bool_decide as Hin.
  { intros [= <-]. do 2 (split; [done|]). by intros u ? ?. }
  destruct (isNamedError _ _) eqn:Hname; [done|].
  destruct (isClassOrInterface _ _ _) eqn:Hci.
  - intros (Hsub & Hall & Hex)%forBases_false; [|exact (IH)].
    split; [set_solver|]. split; [set_solver|].
    intros u Hu Hnu. destruct (decide (u = t)) as [->|Hne].
    + split; [done|]. intros _ b Hb. by apply Hall, baseOf_default.
    + apply Hex; set_solver.
  - intros [= <-]. split; [set_solver|]. split; [set_solver|].
    intros u Hu Hnu. assert (u = t) as -> by set_solver.
    split; [done|]. intros Hci'. congruence.
Qed.

Lemma explored_from_empty seen' t :
  explored ts checker ∅ seen' -> t ∈ seen' -> ¬ reachesError ts checker t.
Proof.
  intros Hex Hin Hreach. induction Hreach as [t Hname|t b Hci Hb _ IH].
  - destruct (Hex t Hin) as [Hn _]; [set_solver|congruence].
  - destruct (Hex t Hin) as [_ Hbases]; [set_solver|]. eauto.
Qed.

Lemma isErrorInterfaceOrBase_complete (fuel : nat) t seen' :
  isErrorInterfaceOrBase ts fuel checker t ∅ = Some (false, seen') ->
  ¬ reachesError ts checker t.
Proof.
  intros (_ & Hin & Hex)%isErrorInterfaceOrBase_false.
  by eapply explored_from_empty.
Qed.

(** *** Termination: on finitely many handles the walk returns *)

Lemma forBases_returns rec bases (U seen : gset Type_) (n : nat) :
  (∀ b s, b ∈ U -> size (U ∖ s) < n -> is_Some (rec b s)) ->
  (∀ b s r s', rec b s = Some (r, s') -> s ⊆ s') ->
  (∀ b, b ∈ bases -> b ∈ U) ->
  size (U ∖ seen) < n ->
  is_Some (forBases rec bases seen).
Proof.
  intros Hrec Hgrow. revert seen.
  induction bases as [|b bases IH]; intros seen HU Hsize; simpl; [done|].
  destruct (Hrec b seen) as [[[] s] Hb]; [set_solver|done| |]; rewrite Hb; [done|].
  apply IH; [set_solver|].
  specialize (Hgrow _ _ _ _ Hb).
  eapply Nat.le_lt_trans; [|exact Hsize].
  apply subseteq_size. set_solver.
Qed.

Lemma isErrorInterfaceOrBase_returns (U : gset Type_) (fuel : nat) t seen :
  closedUnderBases checker U -> t ∈ U ->
  size (U ∖ seen) < fuel ->
  is_Some (isErrorInterfaceOrBase ts fuel checker t seen).
Proof.
  intros Hclosed. revert t seen.
  induction fuel as [|fuel IH]; intros t seen HtU Hsize; [lia|].
  rewrite isErrorInterfaceOrBase_unfold.
  case_bool_decide as Hin; [done|].
  destruct (isNamedError _ _); [done|].
  destruct (isClassOrInterface _ _ _); [|done].
  assert (size (U ∖ (seen ∪ {[t]})) < size (U ∖ seen)) as Hlt.
  { apply subset_size. apply strict_spec_alt. split; [set_solver|].
    intros Heq. assert (t ∈ U ∖ (seen ∪ {[t]})) as Ht' by (rewrite Heq; set_solver).
    set_solver. }
  apply (forBases_returns _ _ U _ fuel).
  - intros b s Hb Hs. by apply IH.
  - intros b s r s' Hb. by destruct (isErrorInterfaceOrBase_grows _ _ _ _ _ Hb).
  - intros b Hb. eapply Hclosed; [exact HtU|]. by apply baseOf_default.
  - lia.
Qed.

(** On a closed finite set of handles, with fuel beyond its size, the
    walk from an empty [seen] returns, and its verdict is whether a chain
    through class and interface types reaches ['Error']. *)
Lemma isErrorInterfaceOrBase_decides (U : gset Type_) (fuel : nat) t :
  closedUnderBases checker U -> t ∈ U -> size U < fuel ->
  ∃ r seen', isErrorInterfaceOrBase ts fuel checker t ∅ = Some (r, seen') ∧
             (r = true ↔ reachesError ts checker t).
Proof.
  intros Hclosed HtU Hsize.
  destruct (isErrorInterfaceOrBase_returns U fuel t ∅) as [[r seen'] Hw]; [done..| |].
  { eapply Nat.le_lt_trans; [|exact Hsize]. apply subseteq_size. set_solver. }
  exists r, seen'. split; [done|]. destruct r.
  - split; [intros _; by eapply isErrorInterfaceOrBase_sound|done].
  - split; [done|]. intros Hr. by destruct (isErrorInterfaceOrBase_complete _ _ _ Hw).
Qed.

End Walk.

(** ** The log of a walk *)

Section WalkLog.

Context (ts : TS.Enums) (checker : TS.TypeChecker).

Lemma forBases_log_erase rec recL bases seen :
  (∀ b s, rec b s = eraseLog <$> recL b s) ->
  forBases rec bases seen = eraseLog <$> forBases_log recL bases seen.
Proof.
  intros Hrec. revert seen. induction bases as [|b bases IH]; intros seen; simpl; [done|].
  rewrite Hrec. destruct (recL b seen) as [[[[] s] log]|]; simpl; [done| |done].
  rewrite IH. by destruct (forBases_log recL bases s) as [[[r s'] log']|].
Qed.

(** Dropping the log gives back the walk of the program. *)
Lemma isErrorInterfaceOrBase_log_erase (fuel : nat) t seen :
  isErrorInterfaceOrBase ts fuel checker t seen
  = eraseLog <$> isErrorInterfaceOrBase_log ts fuel checker t seen.
Proof.
  revert t seen. induction fuel as [|fuel IH]; intros t seen; [done|].
  cbn [isErrorInterfaceOrBase isErrorInterfaceOrBase_log].
  destruct (bool_decide _); [done|].
  destruct (match TS.getSymbol _ with Some _ => _ | None => _ end); [done|].
  destruct (truthy (Z.land (TS.flags _) _)); [|done].
  destruct (truthy (Z.land (TS.objectFlags _) _)); [|done].
  rewrite (forBases_log_erase _ (isErrorInterfaceOrBase_log ts fuel checker)); [|done].
  by destruct (forBases_log _ _ _) as [[[r s'] log']|].
Qed.



Lemma logged_app s1 s2 s3 log log' :
  logged s1 s2 log -> logged s2 s3 log' -> logged s1 s3 (log ++ log').
Proof.
  intros (Hnd & Hfresh & ->) (Hnd' & Hfresh' & ->). split; [|split].
  - apply NoDup_app. split; [done|]. split; [|done].
    intros u Hu Hu'. apply (Hfresh' u Hu'). set_solver.
  - intros u [Hu|Hu]%elem_of_app; [by apply Hfresh|].
    specialize (Hfresh' u Hu). set_solver.
  - rewrite list_to_set_app_L. set_solver.
Qed.

Lemma forBases_log_logged recL bases seen r seen' log :
  (∀ b s r' s' l, recL b s = Some (r', s', l) -> logged s s' l) ->
  forBases_log recL bases seen = Some (r, seen', log) -> logged seen seen' log.
Proof.
  intros Hrec. revert seen r seen' log.
  induction bases as [|b bases IH]; intros seen r seen' log; simpl.
  - intros [= _ <- <-]. split; [constructor|]. split; [by intros ? ?%elem_of_nil|].
    set_solver.
  - destruct (recL b seen) as [[[[] s] l]|] eqn:Hb; [| |done].
    + intros [= _ <- <-]. eauto.
    + destruct (forBases_log recL bases s) as [[[r' s'] l']|] eqn:Hrest; [|done].
      intros [= _ <- <-]. eapply logged_app; eauto.
Qed.

Lemma isErrorInterfaceOrBase_log_logged (fuel : nat) t seen r seen' log :
  isErrorInterfaceOrBase_log ts fuel checker t seen = Some (r, seen', log) ->
  logged seen seen' log.
Proof.
  revert t seen r seen' log.
  induction fuel as [|fuel IH]; intros t seen r seen' log; [done|].
  cbn [isErrorInterfaceOrBase_log].
  assert (t ∉ seen -> logged seen (seen ∪ {[t]}) [t]) as Hone.
  { intros Hin. split; [apply NoDup_singleton|]. split; [|set_solver].
    by intros u ->%list_elem_of_singleton. }
  case_bool_decide as Hin.
  { intros [= _ <- <-]. split; [constructor|]. split; [by intros ? ?%elem_of_nil|].
    set_solver. }
  destruct (match TS.getSymbol _ with Some _ => _ | None => _ end);
    [intros [= _ <- <-]; auto|].
  destruct (truthy (Z.land (TS.flags _) _)); [|intros [= _ <- <-]; auto].
  destruct (truthy (Z.land (TS.objectFlags _) _)); [|intros [= _ <- <-]; auto].
  destruct (forBases_log _ _ _) as [[[r' s'] l']|] eqn:Hb; [|done].
  intros [= _ <- <-].
  apply (logged_app _ (seen ∪ {[t]}) _ [t] l'); [auto|].
  eapply forBases_log_logged; [|exact Hb]. apply IH.
Qed.


End WalkLog.

(** ** The matcher over the flattened leaves *)

Section Matcher.

Context (ts : TS.Enums) (checker : TS.TypeChecker).

Lemma forParts_unfold (fuel : nat) t parts :
  forParts ts fuel checker (t :: parts) =
    if isInformative ts checker t then
      match isErrorInterfaceOrBase ts fuel checker (TS.getApparentType checker t) ∅ with
      | None => None
      | Some (true, _) => Some true
      | Some (false, _) => forParts ts fuel checker parts
      end
    else forParts ts fuel checker parts.
Proof.
  cbn [forParts]. unfold isInformative.
  destruct (truthy (Z.land _ (TS.TypeFlags_Any ts))); [done|].
  destruct (truthy (Z.land _ (TS.TypeFlags_Unknown ts))); [done|].
  by destruct (truthy (Z.land _ (TS.TypeFlags_Never ts))).
Qed.

Lemma flattenTypes_plain (fuel : nat) t :
  isPlain ts checker t = true -> flattenTypes ts (S fuel) checker t = Some [t].
Proof.
  unfold isPlain. cbn [flattenTypes].
  destruct (TS.isUnion _); [done|]. destruct (TS.isIntersection _); [done|].
  by destruct (truthy _).
Qed.

(** A leaf with one of the flags [Any], [Unknown], [Never] is skipped. *)
Lemma forParts_discard (fuel : nat) pre t post :
  isInformative ts checker t = false ->
  forParts ts fuel checker (pre ++ t :: post) = forParts ts fuel checker (pre ++ post).
Proof.
  intros Ht. induction pre as [|p pre IH]; simpl app.
  - by rewrite forParts_unfold, Ht.
  - rewrite !forParts_unfold, IH. done.
Qed.

Lemma forParts_sound (fuel : nat) parts :
  forParts ts fuel checker parts = Some true ->
  ∃ e, e ∈ parts ∧ isInformative ts checker e = true
       ∧ reachesError ts checker (TS.getApparentType checker e).
Proof.
  induction parts as [|t parts IH]; [done|].
  rewrite forParts_unfold.
  destruct (isInformative ts checker t) eqn:Hinf.
  - destruct (isErrorInterfaceOrBase _ _ _ _ _) as [[[] s]|] eqn:Hw; [| |done].
    + intros _. exists t. split; [left|]. split; [done|].
      by eapply isErrorInterfaceOrBase_sound.
    + intros (e & He & H)%IH. exists e. split; [by right|done].
  - intros (e & He & H)%IH. exists e. split; [by right|done].
Qed.

Lemma forParts_false (fuel : nat) parts e :
  forParts ts fuel checker parts = Some false ->
  e ∈ parts -> isInformative ts checker e = true ->
  ¬ reachesError ts checker (TS.getApparentType checker e).
Proof.
  induction parts as [|t parts IH]; [by intros _ ?%elem_of_nil|].
  rewrite forParts_unfold. intros H [->|Hin]%elem_of_cons Hinf.
  - rewrite Hinf in H.
    destruct (isErrorInterfaceOrBase _ _ _ _ _) as [[[] s]|] eqn:Hw; [done| |done].
    by eapply isErrorInterfaceOrBase_complete.
  - apply IH; [|done..].
    destruct (isInformative ts checker t); [|done].
    by destruct (isErrorInterfaceOrBase _ _ _ _ _) as [[[] s]|].
Qed.

Lemma forParts_returns (U : gset Type_) (fuel : nat) parts :
  closedUnderBases checker U ->
  (∀ p, p ∈ parts -> TS.getApparentType checker p ∈ U) ->
  size U < fuel ->
  is_Some (forParts ts fuel checker parts).
Proof.
  intros Hclosed HU Hsize. induction parts as [|t parts IH]; [done|].
  rewrite forParts_unfold.
  assert (is_Some (forParts ts fuel checker parts)) as Hrest.
  { apply IH. intros p Hp. apply HU. by right. }
  destruct (isInformative ts checker t); [|done].
  destruct (isErrorInterfaceOrBase_decides ts checker U fuel (TS.getApparentType checker t))
    as (r & s & -> & _); [done|apply HU; left|done|].
  by destruct r.
Qed.

(** The verdict over the leaves is the disjunction of the verdicts of the
    leaves that are not skipped. *)
Lemma forParts_decides (U : gset Type_) (fuel : nat) parts :
  closedUnderBases checker U ->
  (∀ p, p ∈ parts -> TS.getApparentType checker p ∈ U) ->
  size U < fuel ->
  ∃ r, forParts ts fuel checker parts = Some r ∧
       (r = true ↔ ∃ e, e ∈ parts ∧ isInformative ts checker e = true
                        ∧ reachesError ts checker (TS.getApparentType checker e)).
Proof.
  intros Hclosed HU Hsize.
  destruct (forParts_returns U fuel parts) as [r Hr]; [done..|].
  exists r. split; [done|]. destruct r.
  - split; [intros _; by apply (forParts_sound fuel)|done].
  - split; [done|]. intros (e & He & Hinf & Hreach).
    by destruct (forParts_false _ _ _ Hr He Hinf).
Qed.

Lemma isErrorOrSubclass_decides (U : gset Type_) (fuel0 fuel : nat) t parts :
  flattenTypes ts fuel0 checker t = Some parts ->
  closedUnderBases checker U ->
  (∀ p, p ∈ parts -> TS.getApparentType checker p ∈ U) ->
  fuel0 <= fuel -> size U < fuel ->
  ∃ r, isErrorOrSubclass ts fuel checker t = Some r ∧
       (r = true ↔ ∃ e, e ∈ parts ∧ isInformative ts checker e = true
                        ∧ reachesError ts checker (TS.getApparentType checker e)).
Proof.
  intros Hflat Hclosed HU Hle Hsize. unfold isErrorOrSubclass.
  rewrite (flattenTypes_mono ts _ _ _ _ _ Hle Hflat).
  by apply (forParts_decides U).
Qed.

(** The listener, once the statement is classified, in the vocabulary of
    the specification. *)
Lemma listener_classified (fuel : nat) services node extracted reports :
  program_getTypeChecker services = checker ->
  getStandaloneCall (expression node) = Some extracted ->
  ExpressionStatement_listener ts fuel services node reports =
    match mayBeError ts fuel checker
            (resolveResultType services (call extracted) (isAwait extracted)) with
    | None => None
    | Some false => Some reports
    | Some true => Some (reports ++ [requireErrorCheckAt node])
    end.
Proof.
  intros <- Hc. unfold ExpressionStatement_listener, mayBeError, resolveResultType.
  rewrite Hc. by destruct (isAwait extracted).
Qed.

End Matcher.

(** ** The report decision *)

(** C1. For an expression statement that [getStandaloneCall] classifies
    as a standalone, possibly awaited, call, the listener reports exactly
    when [mayBeError (resolveResultType call isAwaited)] is true: it adds
    the one diagnostic when the verdict is true, leaves the reports as
    they are when it is false, and returns whenever the matcher does.  A
    statement that uses the call result (returns it, throws it, binds or
    assigns it) is never reported, whatever the types are. *)
Theorem listener_reports_iff_mayBeError
    (ts : TS.Enums) (fuel : nat) (services : ParserServices) (reports : list Diagnostic) :
  (∀ node extracted,
     getStandaloneCall (expression node) = Some extracted ->
     let verdict :=
       mayBeError ts fuel (program_getTypeChecker services)
         (resolveResultType services (call extracted) (isAwait extracted)) in
     let outcome := ExpressionStatement_listener ts fuel services node reports in
     (outcome = Some (reports ++ [requireErrorCheckAt node]) ↔ verdict = Some true)
     ∧ (outcome = Some reports ↔ verdict = Some false)
     ∧ (outcome = None ↔ verdict = None))
  ∧ (∀ s, usesResult s = true ->
          enterNode (create ts fuel services) s reports = Some reports).
Proof.
  split.
  - intros node extracted Hc verdict outcome. subst outcome.
    rewrite (listener_classified ts _ fuel services node extracted reports eq_refl Hc).
    fold verdict.
    assert (reports ++ [requireErrorCheckAt node] ≠ reports) as Hne.
    { intros Heq. apply (f_equal length) in Heq. rewrite length_app in Heq.
      simpl in Heq. lia. }
    destruct verdict as [[]|]; repeat split; try done; intros [= ?]; congruence.
  - intros s Hs. destruct s as [node| | | | |]; try done.
    simpl in *. unfold ExpressionStatement_listener.
    by destruct (expression node).
Qed.

Lemma listener_reports_iff_mayBeError_witness :
  ExpressionStatement_listener Sample.typescript 3 Sample.services
    (Sample.statement (Sample.callOf "f" Sample.tErrorOrTrue)) []
  = Some ([] ++ [requireErrorCheckAt (Sample.statement (Sample.callOf "f" Sample.tErrorOrTrue))])
  ∧ enterNode (create Sample.typescript 3 Sample.services)
      (SReturnStatement (Some (Sample.callOf "f" Sample.tErrorOrTrue))) []
    = Some [].
Proof.
  destruct (listener_reports_iff_mayBeError Sample.typescript 3 Sample.services [])
    as [Hreport Hused].
  split.
  - apply (Hreport (Sample.statement (Sample.callOf "f" Sample.tErrorOrTrue))
             {| call := Sample.callOf "f" Sample.tErrorOrTrue; isAwait := false |}).
    + reflexivity.
    + vm_compute. reflexivity.
  - apply Hused. reflexivity.
Defined.

(** ** The statement classifier *)

(** C2. [getStandaloneCall] recognises two shapes and no other: a call
    expression gives the call itself, not awaited; an await expression
    whose operand is a call expression gives that call, awaited; every
    other expression gives none.  It is the classifier of section 4.1. *)
Theorem getStandaloneCall_two_shapes (expr : Expression) :
  getStandaloneCall expr = classify expr
  ∧ (∀ r c a, expr = CallExpression r c a ->
       getStandaloneCall expr = Some {| call := expr; isAwait := false |})
  ∧ (∀ r c a, expr = AwaitExpression (Some (CallExpression r c a)) ->
       getStandaloneCall expr = Some {| call := CallExpression r c a; isAwait := true |})
  ∧ ((∀ r c a, expr ≠ CallExpression r c a) ->
     (∀ r c a, expr ≠ AwaitExpression (Some (CallExpression r c a))) ->
     getStandaloneCall expr = None).
Proof.
  split; [|split; [|split]].
  - destruct expr as [| [[]|] | | | | | | | | |]; reflexivity.
  - by intros r c a ->.
  - by intros r c a ->.
  - intros Hcall Hawait.
    destruct expr as [r c a| [[r c a| | | | | | | | | |]|] | | | | | | | | |];
      try reflexivity.
    + by destruct (Hcall r c a).
    + by destruct (Hawait r c a).
Qed.

Lemma getStandaloneCall_two_shapes_witness :
  getStandaloneCall (AwaitExpression (Some (Sample.callOf "g" Sample.tPromise)))
  = Some {| call := Sample.callOf "g" Sample.tPromise; isAwait := true |}
  ∧ getStandaloneCall
      (MemberExpression (Sample.callOf "g" Sample.tPromise) (Identifier "then"))
    = None.
Proof.
  split.
  - apply (getStandaloneCall_two_shapes
             (AwaitExpression (Some (Sample.callOf "g" Sample.tPromise)))).
    reflexivity.
  - apply (getStandaloneCall_two_shapes
             (MemberExpression (Sample.callOf "g" Sample.tPromise) (Identifier "then")));
      intros r c a; discriminate.
Defined.

(** ** Types that carry no information *)

Lemma isInformative_false (ts : TS.Enums) (checker : TS.TypeChecker) (t : Type_) :
  let o := TS.typeObject checker t in
  truthy (Z.land (TS.flags o) (TS.TypeFlags_Any ts)) = true
  ∨ truthy (Z.land (TS.flags o) (TS.TypeFlags_Unknown ts)) = true
  ∨ truthy (Z.land (TS.flags o) (TS.TypeFlags_Never ts)) = true ->
  isInformative ts checker t = false.
Proof.
  unfold isInformative. intros [-> | [-> | ->]]; simpl; [done| |].
  - by rewrite andb_false_r.
  - by rewrite andb_false_r.
Qed.

(** C5. A flattened leaf that carries one of the flags [Any], [Unknown],
    [Never] is discarded: the loop over the leaves answers as if the leaf
    were not there.  So a standalone call whose result type is such a
    type (any, unknown or never are plain types: not taken apart by the
    flattening) is not reported. *)
Theorem any_unknown_never_not_reported (ts : TS.Enums) (checker : TS.TypeChecker) :
  (∀ (fuel : nat) pre leaf post,
     truthy (Z.land (TS.flags (TS.typeObject checker leaf)) (TS.TypeFlags_Any ts)) = true
     ∨ truthy (Z.land (TS.flags (TS.typeObject checker leaf)) (TS.TypeFlags_Unknown ts)) = true
     ∨ truthy (Z.land (TS.flags (TS.typeObject checker leaf)) (TS.TypeFlags_Never ts)) = true ->
     forParts ts fuel checker (pre ++ leaf :: post) = forParts ts fuel checker (pre ++ post))
  ∧ (∀ (fuel : nat) services node extracted reports,
       program_getTypeChecker services = checker ->
       getStandaloneCall (expression node) = Some extracted ->
       let rt := resolveResultType services (call extracted) (isAwait extracted) in
       isPlain ts checker rt = true ->
       truthy (Z.land (TS.flags (TS.typeObject checker rt)) (TS.TypeFlags_Any ts)) = true
       ∨ truthy (Z.land (TS.flags (TS.typeObject checker rt)) (TS.TypeFlags_Unknown ts)) = true
       ∨ truthy (Z.land (TS.flags (TS.typeObject checker rt)) (TS.TypeFlags_Never ts)) = true ->
       mayBeError ts (S fuel) checker rt = Some false
       ∧ ExpressionStatement_listener ts (S fuel) services node reports = Some reports).
Proof.
  split.
  - intros fuel pre leaf post Hflag.
    apply forParts_discard. by apply isInformative_false.
  - intros fuel services node extracted reports Hchk Hc rt Hplain Hflag.
    assert (mayBeError ts (S fuel) checker rt = Some false) as Hm.
    { unfold mayBeError, isErrorOrSubclass.
      rewrite (flattenTypes_plain ts checker fuel rt Hplain).
      rewrite forParts_unfold.
      by rewrite (isInformative_false ts checker rt Hflag). }
    split; [done|].
    rewrite (listener_classified ts checker (S fuel) services node extracted reports Hchk Hc).
    fold rt. by rewrite Hm.
Qed.

Lemma any_unknown_never_not_reported_witness :
  forParts Sample.typescript 3 Sample.checker ([Sample.tTrue] ++ Sample.tAny :: [Sample.tError])
  = forParts Sample.typescript 3 Sample.checker ([Sample.tTrue] ++ [Sample.tError])
  ∧ ExpressionStatement_listener Sample.typescript 1 Sample.services
      (Sample.statement (Sample.callOf "k" Sample.tUnknown)) []
    = Some [].
Proof.
  destruct (any_unknown_never_not_reported Sample.typescript Sample.checker)
    as [Hleaf Hcall].
  split.
  - apply Hleaf. left. vm_compute. reflexivity.
  - apply (Hcall 0%nat Sample.services
             (Sample.statement (Sample.callOf "k" Sample.tUnknown))
             {| call := Sample.callOf "k" Sample.tUnknown; isAwait := false |}).
    + reflexivity.
    + reflexivity.
    + vm_compute. reflexivity.
    + right. left. vm_compute. reflexivity.
Defined.

(** ** Type parameters in the flattening *)

(** C6, as stated, does not hold: the type parameter [T] of the sample
    graph has no constraint, and flattening it gives the one leaf [T],
    not the empty list; inside a union it stays a leaf as well. *)
Lemma unconstrained_parameter_is_a_leaf :
  TS.getBaseConstraintOfType Sample.checker Sample.tT = None
  ∧ truthy (Z.land (TS.flags (TS.typeObject Sample.checker Sample.tT))
                   (TS.TypeFlags_TypeParameter Sample.typescript)) = true
  ∧ flattenTypes Sample.typescript 1 Sample.checker Sample.tT = Some [Sample.tT]
  ∧ flattenTypes Sample.typescript 1 Sample.checker Sample.tT ≠ Some [].
Proof. repeat split; try (vm_compute; reflexivity). vm_compute. discriminate. Qed.

(** C6, amended. A type-parameter leaf is replaced by the flattening of
    its constraint when the checker gives one; with no constraint the
    type parameter itself is the one leaf it contributes, and the matcher
    then judges it like any other leaf. *)
Theorem flattenTypes_type_parameter
    (ts : TS.Enums) (checker : TS.TypeChecker) (fuel : nat) (t : Type_) :
  TS.isUnion (TS.typeObject checker t) = false ->
  TS.isIntersection (TS.typeObject checker t) = false ->
  truthy (Z.land (TS.flags (TS.typeObject checker t)) (TS.TypeFlags_TypeParameter ts)) = true ->
  (∀ constraint, TS.getBaseConstraintOfType checker t = Some constraint ->
     flattenTypes ts (S fuel) checker t = flattenTypes ts fuel checker constraint)
  ∧ (TS.getBaseConstraintOfType checker t = None ->
     flattenTypes ts (S fuel) checker t = Some [t]
     ∧ isErrorOrSubclass ts (S fuel) checker t = forParts ts (S fuel) checker [t]).
Proof.
  intros Hu Hi Hp. unfold isErrorOrSubclass. cbn [flattenTypes].
  rewrite Hu, Hi, Hp. split.
  - by intros constraint ->.
  - by intros ->.
Qed.

Lemma flattenTypes_type_parameter_witness :
  flattenTypes Sample.typescript 2 Sample.checker Sample.tU
  = flattenTypes Sample.typescript 1 Sample.checker Sample.tMyError
  ∧ flattenTypes Sample.typescript 2 Sample.checker Sample.tT = Some [Sample.tT].
Proof.
  split.
  - apply (flattenTypes_type_parameter Sample.typescript Sample.checker 1 Sample.tU);
      reflexivity.
  - apply (flattenTypes_type_parameter Sample.typescript Sample.checker 1 Sample.tT);
      reflexivity.
Defined.

(** ** Awaited calls *)

(** C8. The unwrapping of an awaited call is a fallback in two tiers that
    always gives a type: the checker's awaited-type operation when it has
    one; otherwise its promised-type extraction when it has that;
    otherwise, and when the operation used yields nothing, the type it
    was given.  It is the function of section 4.2, and an awaited
    standalone call is reported exactly when the matcher accepts the
    unwrapped type. *)
Theorem await_unwraps_with_fallback
    (ts : TS.Enums) (checker : TS.TypeChecker) (t : Type_) :
  getAwaitedType checker t = unwrapAwaited checker t
  ∧ (∀ awaitedOf, TS.getAwaitedType checker = Some awaitedOf ->
       getAwaitedType checker t = default t (awaitedOf t))
  ∧ (∀ promisedOf, TS.getAwaitedType checker = None ->
       TS.getPromisedTypeOfPromise checker = Some promisedOf ->
       getAwaitedType checker t = default t (promisedOf t))
  ∧ (TS.getAwaitedType checker = None -> TS.getPromisedTypeOfPromise checker = None ->
       getAwaitedType checker t = t)
  ∧ (∀ (fuel : nat) services node callee reports,
       program_getTypeChecker services = checker ->
       getStandaloneCall (expression node) = Some {| call := callee; isAwait := true |} ->
       TS.getTypeAtLocation checker (esTreeNodeToTSNodeMap services callee) = t ->
       ExpressionStatement_listener ts fuel services node reports =
         match isErrorOrSubclass ts fuel checker (getAwaitedType checker t) with
         | None => None
         | Some false => Some reports
         | Some true => Some (reports ++ [requireErrorCheckAt node])
         end).
Proof.
  unfold getAwaitedType, unwrapAwaited. split; [|split; [|split; [|split]]].
  - destruct (TS.getAwaitedType checker) as [f|]; [by destruct (f t)|].
    destruct (TS.getPromisedTypeOfPromise checker) as [g|]; [by destruct (g t)|done].
  - by intros f ->.
  - by intros g -> ->.
  - by intros -> ->.
  - intros fuel services node callee reports Hchk Hc Ht.
    rewrite (listener_classified ts checker fuel services node _ reports Hchk Hc).
    unfold mayBeError, resolveResultType. simpl. by rewrite Hchk, Ht.
Qed.

Lemma await_unwraps_with_fallback_witness :
  getAwaitedType Sample.checker Sample.tPromise = Sample.tErrorOrString
  ∧ getAwaitedType Sample.olderChecker Sample.tPromise = Sample.tErrorOrString
  ∧ getAwaitedType Sample.olderChecker Sample.tString = Sample.tString
  ∧ getAwaitedType Sample.bareChecker Sample.tPromise = Sample.tPromise
  ∧ ExpressionStatement_listener Sample.typescript 3 Sample.services
      (Sample.statement (AwaitExpression (Some (Sample.callOf "g" Sample.tPromise)))) []
    = Some [requireErrorCheckAt
              (Sample.statement (AwaitExpression (Some (Sample.callOf "g" Sample.tPromise))))].
Proof.
  split; [|split; [|split; [|split]]].
  - refine (proj1 (proj2 (await_unwraps_with_fallback
              Sample.typescript Sample.checker Sample.tPromise)) _ eq_refl).
  - refine (proj1 (proj2 (proj2 (await_unwraps_with_fallback
              Sample.typescript Sample.olderChecker Sample.tPromise))) _ eq_refl eq_refl).
  - refine (proj1 (proj2 (proj2 (await_unwraps_with_fallback
              Sample.typescript Sample.olderChecker Sample.tString))) _ eq_refl eq_refl).
  - refine (proj1 (proj2 (proj2 (proj2 (await_unwraps_with_fallback
              Sample.typescript Sample.bareChecker Sample.tPromise)))) eq_refl eq_refl).
  - refine (proj2 (proj2 (proj2 (proj2 (await_unwraps_with_fallback
              Sample.typescript Sample.checker Sample.tPromise)))) 3%nat Sample.services
              (Sample.statement (AwaitExpression (Some (Sample.callOf "g" Sample.tPromise))))
              (Sample.callOf "g" Sample.tPromise) [] eq_refl eq_refl eq_refl).
Defined.

(** ** Which types are descended from *)

(** C10. The declared base types are asked for only at an object type
    whose object flags mark a class or an interface.  At any other type
    (a generic class instantiation flagged as a reference, an object
    literal type, a type that is not an object type) the walk inspects
    that one type and nothing else: its verdict is whether the type's own
    symbol is named ['Error'], whatever base types the checker would
    give. *)
Theorem bases_only_of_class_or_interface
    (ts : TS.Enums) (checker : TS.TypeChecker) (fuel : nat) (t : Type_) (seen : gset Type_) :
  isClassOrInterface ts checker t = false -> t ∉ seen ->
  isErrorInterfaceOrBase ts (S fuel) checker t seen
  = Some (isNamedError checker t, seen ∪ {[t]})
  ∧ isErrorInterfaceOrBase_log ts (S fuel) checker t seen
    = Some (isNamedError checker t, seen ∪ {[t]}, [t]).
Proof.
  intros Hci Hin.
  assert (isErrorInterfaceOrBase_log ts (S fuel) checker t seen
          = Some (isNamedError checker t, seen ∪ {[t]}, [t])) as Hlog.
  { revert Hci. unfold isClassOrInterface, isNamedError. cbn [isErrorInterfaceOrBase_log].
    rewrite bool_decide_eq_false_2 by done.
    destruct (match TS.getSymbol _ with Some _ => _ | None => _ end); [done|].
    destruct (truthy (Z.land (TS.flags _) _)); [|done].
    by destruct (truthy (Z.land (TS.objectFlags _) _)). }
  split; [|done].
  by rewrite isErrorInterfaceOrBase_log_erase, Hlog.
Qed.

Lemma bases_only_of_class_or_interface_witness :
  isErrorInterfaceOrBase Sample.typescript 1 Sample.checker Sample.tBox ∅
  = Some (isNamedError Sample.checker Sample.tBox, ∅ ∪ {[Sample.tBox]})
  ∧ isErrorInterfaceOrBase_log Sample.typescript 1 Sample.checker Sample.tBox ∅
    = Some (isNamedError Sample.checker Sample.tBox, ∅ ∪ {[Sample.tBox]}, [Sample.tBox]).
Proof.
  apply (bases_only_of_class_or_interface Sample.typescript Sample.checker 0 Sample.tBox ∅).
  - reflexivity.
  - vm_compute. discriminate.
Defined.

(** ** Error-typed results are reported *)

Lemma closedUnderBasesb_correct (checker : TS.TypeChecker) (l : list Type_) :
  closedUnderBasesb checker l = true -> closedUnderBases checker (list_to_set l).
Proof.
  unfold closedUnderBasesb. rewrite forallb_forall.
  intros Hall t b Ht Hb.
  apply elem_of_list_to_set in Ht. apply list_elem_of_In in Ht.
  specialize (Hall t Ht). rewrite forallb_forall in Hall.
  apply baseOf_default, list_elem_of_In in Hb.
  specialize (Hall b Hb). apply bool_decide_eq_true in Hall.
  by apply elem_of_list_to_set.
Qed.

Lemma flatMap_elem {A B} (f : A -> option (list B)) (l : list A) (r : list B) (x : A) :
  flatMap f l = Some r -> x ∈ l ->
  ∃ ys, f x = Some ys ∧ ∀ y, y ∈ ys -> y ∈ r.
Proof.
  revert r. induction l as [|a l IH]; intros r; simpl; [by intros _ ?%elem_of_nil|].
  destruct (f a) as [ys|] eqn:Ha; [|done].
  destruct (flatMap f l) as [zs|]; [|done].
  intros [= <-] [->|Hin]%elem_of_cons.
  - exists ys. split; [done|]. intros y Hy. apply elem_of_app. by left.
  - destruct (IH zs eq_refl Hin) as (ys' & Hx & Hsub).
    exists ys'. split; [done|]. intros y Hy. apply elem_of_app. right. by apply Hsub.
Qed.

Lemma flatMap_elem_inv {A B} (f : A -> option (list B)) (l : list A) (r : list B) (y : B) :
  flatMap f l = Some r -> y ∈ r ->
  ∃ x ys, x ∈ l ∧ f x = Some ys ∧ y ∈ ys.
Proof.
  revert r. induction l as [|a l IH]; intros r; simpl.
  - by intros [= <-] ?%elem_of_nil.
  - destruct (f a) as [ys|] eqn:Ha; [|done].
    destruct (flatMap f l) as [zs|]; [|done].
    intros [= <-] [Hy|Hy]%elem_of_app.
    + exists a, ys. split; [left|done].
    + destruct (IH zs eq_refl Hy) as (x & ys' & Hx & Hfx & Hin).
      exists x, ys'. split; [by right|done].
Qed.

Lemma leafOf_terminal (ts : TS.Enums) (checker : TS.TypeChecker) (t p : Type_) :
  leafOf ts checker t p ->
  TS.isUnion (TS.typeObject checker p) = false
  ∧ TS.isIntersection (TS.typeObject checker p) = false
  ∧ (truthy (Z.land (TS.flags (TS.typeObject checker p)) (TS.TypeFlags_TypeParameter ts)) = false
     ∨ TS.getBaseConstraintOfType checker p = None).
Proof. induction 1; auto. Qed.

Lemma flattenTypes_leafOf
    (ts : TS.Enums) (checker : TS.TypeChecker) (fuel : nat) (t : Type_) (parts : list Type_)
    (p : Type_) :
  flattenTypes ts fuel checker t = Some parts ->
  p ∈ parts ↔ leafOf ts checker t p.
Proof.
  intros Hflat.
  revert t parts Hflat. induction fuel as [|fuel IH]; intros t parts; [done|].
    cbn [flattenTypes].
    assert (TS.isUnion (TS.typeObject checker t) = true
            ∨ TS.isIntersection (TS.typeObject checker t) = true ->
            flatMap (flattenTypes ts fuel checker) (TS.types (TS.typeObject checker t))
            = Some parts ->
            p ∈ parts ↔ leafOf ts checker t p) as Hcompound.
    { intros Hkind Hflat. split.
      - intros Hp. destruct (flatMap_elem_inv _ _ _ _ Hflat Hp) as (m & ys & Hm & Hys & Hin).
        apply (leafOf_member ts checker t m p Hkind Hm). by apply (IH m ys).
      - intros Hleaf. inversion Hleaf as [t' Hu Hi _|t' m p' _ Hm Hsub|t' c p' Hu Hi _ _ _]; subst.
        + destruct Hkind; congruence.
        + destruct (flatMap_elem _ _ _ m Hflat Hm) as (ys & Hys & Hsubset).
          apply Hsubset. by apply (IH m ys).
        + destruct Hkind; congruence. }
    destruct (TS.isUnion (TS.typeObject checker t)) eqn:Hu; [by apply Hcompound; left|].
    destruct (TS.isIntersection (TS.typeObject checker t)) eqn:Hi; [by apply Hcompound; right|].
    clear Hcompound.
    destruct (truthy _) eqn:Hp.
    - destruct (TS.getBaseConstraintOfType checker t) as [c|] eqn:Hc.
      + intros Hflat. split.
        * intros Hin. apply (leafOf_constraint ts checker t c p); try done. by apply (IH c parts).
        * intros Hleaf.
          inversion Hleaf as [t' _ _ [Hq|Hq]|t' m p' [Hk|Hk] _ _|t' c' p' _ _ _ Hc' Hsub];
            subst; try congruence.
          assert (c' = c) as -> by congruence. by apply (IH c parts).
      + intros [= <-]. split.
        * intros ->%list_elem_of_singleton. apply leafOf_self; auto.
        * intros Hleaf.
          inversion Hleaf as [t' _ _ _|t' m p' [Hk|Hk] _ _|t' c' p' _ _ _ Hc' _];
            subst; try congruence. by apply list_elem_of_singleton.
    - intros [= <-]. split.
      + intros ->%list_elem_of_singleton. apply leafOf_self; auto.
      + intros Hleaf.
        inversion Hleaf as [t' _ _ _|t' m p' [Hk|Hk] _ _|t' c' p' _ _ Hq _ _];
          subst; try congruence. by apply list_elem_of_singleton.
Qed.



Lemma flattenTypes_plain_inv (ts : TS.Enums) (checker : TS.TypeChecker)
    (fuel : nat) (t : Type_) (parts : list Type_) :
  isPlain ts checker t = true ->
  flattenTypes ts fuel checker t = Some parts -> parts = [t].
Proof.
  intros Hplain. destruct fuel as [|fuel]; [done|].
  rewrite (flattenTypes_plain ts checker fuel t Hplain). by intros [= <-].
Qed.



Lemma sample_universe_closed : closedUnderBases Sample.checker Sample.universe.
Proof. apply closedUnderBasesb_correct. vm_compute. reflexivity. Qed.

Lemma sample_universe_all (t : Type_) :
  bool_decide (t ∈ Sample.handles) = true -> t ∈ Sample.universe.
Proof. intros H%bool_decide_eq_true. by apply elem_of_list_to_set. Qed.



(** ** Subtypes of the error base type *)





(** ** The cycle guard *)




Example cyclic_bases_log :
  isErrorInterfaceOrBase_log Sample.typescript 3 Sample.checker Sample.tA ∅
  = Some (false, list_to_set [Sample.tA; Sample.tB], [Sample.tA; Sample.tB]).
Proof. vm_compute. reflexivity. Qed.

(** ** No state between statements *)

Section Stateless.

Context (ts : TS.Enums) (fuel : nat) (services : ParserServices).

(** The listener only appends: what it has to say about a statement does
    not depend on the reports collected before. *)
Lemma listener_frame node reports :
  ExpressionStatement_listener ts fuel services node reports
  = (reports ++.) <$> ExpressionStatement_listener ts fuel services node [].
Proof.
  unfold ExpressionStatement_listener.
  destruct (getStandaloneCall _) as [extracted|]; simpl; [|by rewrite app_nil_r].
  destruct (isErrorOrSubclass _ _ _ _) as [[]|]; simpl; [done| |done].
  by rewrite app_nil_r.
Qed.

Lemma enterNode_frame s reports :
  enterNode (create ts fuel services) s reports
  = (reports ++.) <$> enterNode (create ts fuel services) s [].
Proof.
  destruct s; simpl; try (by rewrite app_nil_r). apply listener_frame.
Qed.

Lemma enterNodes_frame nodes reports :
  enterNodes (create ts fuel services) nodes reports
  = (reports ++.) <$> enterNodes (create ts fuel services) nodes [].
Proof.
  revert reports. induction nodes as [|s nodes IH]; intros reports; simpl.
  - by rewrite app_nil_r.
  - rewrite (enterNode_frame s reports).
    destruct (enterNode (create ts fuel services) s []) as [d|]; simpl; [|done].
    rewrite (IH (reports ++ d)), (IH d).
    destruct (enterNodes (create ts fuel services) nodes []) as [d'|]; simpl; [|done].
    by rewrite app_assoc.
Qed.

Lemma enterNodes_app nodes1 nodes2 reports :
  enterNodes (create ts fuel services) (nodes1 ++ nodes2) reports
  = match enterNodes (create ts fuel services) nodes1 reports with
    | None => None
    | Some reports' => enterNodes (create ts fuel services) nodes2 reports'
    end.
Proof.
  revert reports. induction nodes1 as [|s nodes1 IH]; intros reports; simpl; [done|].
  destruct (enterNode _ s reports); [apply IH|done].
Qed.

End Stateless.

(** The outcome depends on the checker through its answers only. *)

Section SameAnswers.

Context (ts : TS.Enums) (c1 c2 : TS.TypeChecker) (Hsame : sameAnswers c1 c2).

Lemma flatMap_ext {A B} (f g : A -> option (list B)) (l : list A) :
  (∀ x, f x = g x) -> flatMap f l = flatMap g l.
Proof.
  intros Hfg. induction l as [|x l IH]; simpl; [done|]. by rewrite Hfg, IH.
Qed.

Lemma forBases_ext rec rec' bases seen :
  (∀ b s, rec b s = rec' b s) -> forBases rec bases seen = forBases rec' bases seen.
Proof.
  intros Hrec. revert seen. induction bases as [|b bases IH]; intros seen; simpl; [done|].
  rewrite Hrec. by destruct (rec' b seen) as [[[] s]|].
Qed.

Lemma getAwaitedType_same t : getAwaitedType c1 t = getAwaitedType c2 t.
Proof.
  unfold getAwaitedType.
  pose proof (same_getAwaitedType _ _ Hsame) as Ha.
  pose proof (same_getPromisedTypeOfPromise _ _ Hsame) as Hp.
  unfold sameOperation in *.
  destruct (TS.getAwaitedType c1) as [f1|], (TS.getAwaitedType c2) as [f2|];
    try done; [by rewrite Ha|].
  destruct (TS.getPromisedTypeOfPromise c1) as [g1|],
    (TS.getPromisedTypeOfPromise c2) as [g2|]; try done.
  by rewrite Hp.
Qed.

Lemma flattenTypes_same (fuel : nat) t :
  flattenTypes ts fuel c1 t = flattenTypes ts fuel c2 t.
Proof.
  revert t. induction fuel as [|fuel IH]; intros t; [done|].
  cbn [flattenTypes].
  rewrite (same_typeObject _ _ Hsame), (same_getBaseConstraintOfType _ _ Hsame).
  rewrite (flatMap_ext _ _ _ IH).
  destruct (TS.isUnion _); [done|]. destruct (TS.isIntersection _); [done|].
  destruct (truthy _); [|done].
  by destruct (TS.getBaseConstraintOfType c2 t).
Qed.

Lemma isErrorInterfaceOrBase_same (fuel : nat) t seen :
  isErrorInterfaceOrBase ts fuel c1 t seen = isErrorInterfaceOrBase ts fuel c2 t seen.
Proof.
  revert t seen. induction fuel as [|fuel IH]; intros t seen; [done|].
  cbn [isErrorInterfaceOrBase].
  rewrite (same_typeObject _ _ Hsame), (same_getBaseTypes _ _ Hsame).
  by rewrite (forBases_ext _ _ _ _ IH).
Qed.

Lemma forParts_same (fuel : nat) parts :
  forParts ts fuel c1 parts = forParts ts fuel c2 parts.
Proof.
  induction parts as [|t parts IH]; simpl; [done|].
  rewrite (same_typeObject _ _ Hsame), (same_getApparentType _ _ Hsame).
  by rewrite isErrorInterfaceOrBase_same, IH.
Qed.

Lemma isErrorOrSubclass_same (fuel : nat) t :
  isErrorOrSubclass ts fuel c1 t = isErrorOrSubclass ts fuel c2 t.
Proof.
  unfold isErrorOrSubclass. rewrite flattenTypes_same.
  destruct (flattenTypes ts fuel c2 t); [apply forParts_same|done].
Qed.

End SameAnswers.

Lemma listener_same (ts : TS.Enums) (fuel : nat) (s1 s2 : ParserServices) node reports :
  sameServices s1 s2 ->
  ExpressionStatement_listener ts fuel s1 node reports
  = ExpressionStatement_listener ts fuel s2 node reports.
Proof.
  intros [Hmap Hsame]. unfold ExpressionStatement_listener.
  destruct (getStandaloneCall _) as [extracted|]; [|done].
  rewrite Hmap, (same_getTypeAtLocation _ _ Hsame).
  rewrite (getAwaitedType_same _ _ Hsame).
  by rewrite (isErrorOrSubclass_same ts _ _ Hsame).
Qed.

Lemma lintFile_same (ts : TS.Enums) (fuel : nat) (s1 s2 : ParserServices) file reports :
  sameServices s1 s2 ->
  lintFile ts fuel s1 file reports = lintFile ts fuel s2 file reports.
Proof.
  intros Hsame. unfold lintFile. generalize (flat_map nodesOf file) as nodes.
  intros nodes. revert reports.
  induction nodes as [|s nodes IH]; intros reports; simpl; [done|].
  assert (enterNode (create ts fuel s1) s reports = enterNode (create ts fuel s2) s reports)
    as ->.
  { destruct s; simpl; try done. by apply listener_same. }
  destruct (enterNode _ s reports); [apply IH|done].
Qed.

(** C9. The rule keeps no state between statements or runs.  What the
    listener reports for a statement is the same whatever was reported
    before; so is the outcome of a run over a file; the diagnostics of a
    file are those of its parts, one after the other; a second run over
    the same file, started where the first one ended, yields the
    diagnostics of the first once more; and a run with a checker that
    gives the same answers to the queries yields the same diagnostics. *)
Theorem lint_is_stateless (ts : TS.Enums) (fuel : nat) (services : ParserServices) :
  (∀ node reports,
     ExpressionStatement_listener ts fuel services node reports
     = (reports ++.) <$> ExpressionStatement_listener ts fuel services node [])
  ∧ (∀ file reports,
       lintFile ts fuel services file reports
       = (reports ++.) <$> lintFile ts fuel services file [])
  ∧ (∀ file1 file2,
       lintFile ts fuel services (file1 ++ file2) []
       = match lintFile ts fuel services file1 [], lintFile ts fuel services file2 [] with
         | Some d1, Some d2 => Some (d1 ++ d2)
         | _, _ => None
         end)
  ∧ (∀ file diagnostics,
       lintFile ts fuel services file [] = Some diagnostics ->
       lintFile ts fuel services file diagnostics = Some (diagnostics ++ diagnostics))
  ∧ (∀ services' file reports,
       sameServices services services' ->
       lintFile ts fuel services file reports = lintFile ts fuel services' file reports).
Proof.
  split; [|split; [|split; [|split]]]; [| | | |intros; by apply lintFile_same].
  - apply listener_frame.
  - intros file reports. apply enterNodes_frame.
  - intros file1 file2. unfold lintFile.
    rewrite flat_map_app, enterNodes_app.
    destruct (enterNodes _ (flat_map nodesOf file1) []) as [d1|]; [|done].
    rewrite (enterNodes_frame ts fuel services _ d1).
    by destruct (enterNodes _ (flat_map nodesOf file2) []).
  - intros file diagnostics Hrun. unfold lintFile in *.
    by rewrite (enterNodes_frame ts fuel services _ diagnostics), Hrun.
Qed.

Lemma lint_is_stateless_witness :
  lintFile Sample.typescript 3 Sample.services
    [SExpressionStatement (Sample.statement (Sample.callOf "f" Sample.tErrorOrTrue));
     SVariableDeclaration "const" "r" (Some (Sample.callOf "f" Sample.tErrorOrTrue));
     SIfStatement (Identifier "r")
       (SBlockStatement
          [SExpressionStatement (Sample.statement (Sample.callOf "h" Sample.tMyErrorOrNull));
           SThrowStatement (Identifier "r")])
       None]
    [requireErrorCheckAt (Sample.statement (Sample.callOf "f" Sample.tErrorOrTrue));
     requireErrorCheckAt (Sample.statement (Sample.callOf "h" Sample.tMyErrorOrNull))]
  = Some ([requireErrorCheckAt (Sample.statement (Sample.callOf "f" Sample.tErrorOrTrue));
           requireErrorCheckAt (Sample.statement (Sample.callOf "h" Sample.tMyErrorOrNull))]
          ++ [requireErrorCheckAt (Sample.statement (Sample.callOf "f" Sample.tErrorOrTrue));
              requireErrorCheckAt (Sample.statement (Sample.callOf "h" Sample.tMyErrorOrNull))]).
Proof.
  apply (lint_is_stateless Sample.typescript 3 Sample.services).
  vm_compute. reflexivity.
Defined.

(** ** Further properties of the flattening *)

(** X1. When the flattening of a type returns, its result holds exactly
    the leaves below the type: the types reached through the members of
    unions and intersections and the constraints of type parameters at
    which the flattening stops.  So no element of the result is a union
    or an intersection, and a type parameter is among them only when the
    checker gives no constraint for it. *)
Theorem flattenTypes_leaves_exactly
    (ts : TS.Enums) (checker : TS.TypeChecker) (fuel : nat) (t : Type_) (parts : list Type_) :
  flattenTypes ts fuel checker t = Some parts ->
  ∀ p, (p ∈ parts ↔ leafOf ts checker t p)
       ∧ (p ∈ parts ->
          TS.isUnion (TS.typeObject checker p) = false
          ∧ TS.isIntersection (TS.typeObject checker p) = false
          ∧ (truthy (Z.land (TS.flags (TS.typeObject checker p))
                            (TS.TypeFlags_TypeParameter ts)) = false
             ∨ TS.getBaseConstraintOfType checker p = None)).
Proof.
  intros Hflat p.
  pose proof (flattenTypes_leafOf ts checker fuel t parts p Hflat) as Hiff.
  split; [done|].
  intros Hin. apply (leafOf_terminal ts checker t p). by apply Hiff.
Qed.

Lemma flattenTypes_leaves_exactly_witness :
  (Sample.tMyError ∈ [Sample.tMyError] ↔
   leafOf Sample.typescript Sample.checker Sample.tU Sample.tMyError)
  ∧ (Sample.tMyError ∈ [Sample.tMyError] ->
     TS.isUnion (TS.typeObject Sample.checker Sample.tMyError) = false
     ∧ TS.isIntersection (TS.typeObject Sample.checker Sample.tMyError) = false
     ∧ (truthy (Z.land (TS.flags (TS.typeObject Sample.checker Sample.tMyError))
                       (TS.TypeFlags_TypeParameter Sample.typescript)) = false
        ∨ TS.getBaseConstraintOfType Sample.checker Sample.tMyError = None)).
Proof.
  apply (flattenTypes_leaves_exactly Sample.typescript Sample.checker 2 Sample.tU
           [Sample.tMyError]).
  vm_compute. reflexivity.
Defined.

(** ** Every report has a reason *)

(** X2. The listener adds a diagnostic only for a statement that is a
    call or an awaited call whose resolved type has a flattened leaf that
    carries none of the flags [Any], [Unknown], [Never] and whose
    apparent type reaches a type named ['Error'] through base types of
    class or interface types.  This needs no assumption on the type
    graph. *)
Theorem report_has_error_chain
    (ts : TS.Enums) (fuel : nat) (services : ParserServices)
    (node : ExpressionStatement) (reports reports' : list Diagnostic) :
  ExpressionStatement_listener ts fuel services node reports = Some reports' ->
  reports' ≠ reports ->
  let checker := program_getTypeChecker services in
  ∃ extracted parts leaf,
    getStandaloneCall (expression node) = Some extracted
    ∧ flattenTypes ts fuel checker
        (resolveResultType services (call extracted) (isAwait extracted)) = Some parts
    ∧ leaf ∈ parts
    ∧ isInformative ts checker leaf = true
    ∧ reachesError ts checker (TS.getApparentType checker leaf).
Proof.
  intros Hrun Hne checker.
  destruct (getStandaloneCall (expression node)) as [extracted|] eqn:Hc.
  - rewrite (listener_classified ts checker fuel services node extracted reports eq_refl Hc)
      in Hrun.
    unfold mayBeError, isErrorOrSubclass in Hrun.
    destruct (flattenTypes ts fuel checker _) as [parts|] eqn:Hflat; [|done].
    destruct (forParts ts fuel checker parts) as [[]|] eqn:Hparts; [| |done].
    + destruct (forParts_sound ts checker fuel parts Hparts) as (leaf & Hin & Hinf & Hreach).
      by exists extracted, parts, leaf.
    + injection Hrun as <-. done.
  - unfold ExpressionStatement_listener in Hrun. rewrite Hc in Hrun.
    injection Hrun as <-. done.
Qed.

Lemma report_has_error_chain_witness :
  ∃ extracted parts leaf,
    getStandaloneCall
      (expression (Sample.statement
                     (AwaitExpression (Some (Sample.callOf "g" Sample.tPromise)))))
    = Some extracted
    ∧ flattenTypes Sample.typescript 3 Sample.checker
        (resolveResultType Sample.services (call extracted) (isAwait extracted)) = Some parts
    ∧ leaf ∈ parts
    ∧ isInformative Sample.typescript Sample.checker leaf = true
    ∧ reachesError Sample.typescript Sample.checker
        (TS.getApparentType Sample.checker leaf).
Proof.
  apply (report_has_error_chain Sample.typescript 3 Sample.services
           (Sample.statement (AwaitExpression (Some (Sample.callOf "g" Sample.tPromise))))
           []
           [requireErrorCheckAt
              (Sample.statement (AwaitExpression (Some (Sample.callOf "g" Sample.tPromise))))]).
  - vm_compute. reflexivity.
  - discriminate.
Defined.

(** ** The order of the leaves *)

(** X3. On a graph whose base types stay within finitely many handles,
    and with fuel beyond their number, the verdict over the leaves
    depends on which leaves there are and not on their order or on
    repetitions: two lists with the same elements get the same verdict. *)
Theorem forParts_order_irrelevant
    (ts : TS.Enums) (checker : TS.TypeChecker) (U : gset Type_) (fuel : nat)
    (parts parts' : list Type_) :
  closedUnderBases checker U ->
  (∀ p, p ∈ parts -> TS.getApparentType checker p ∈ U) ->
  size U < fuel ->
  (∀ p, p ∈ parts ↔ p ∈ parts') ->
  forParts ts fuel checker parts = forParts ts fuel checker parts'.
Proof.
  intros Hclosed HU Hsize Hsame.
  destruct (forParts_decides ts checker U fuel parts) as (r & -> & Hr); [done..|].
  destruct (forParts_decides ts checker U fuel parts') as (r' & -> & Hr');
    [done|by intros p Hp%Hsame; apply HU|done|].
  f_equal. destruct r, r'; try done.
  - assert (false = true) as Hcontra; [|done].
    apply Hr'. destruct (proj1 Hr eq_refl) as (e & He & H). exists e. by rewrite <- Hsame.
  - assert (false = true) as Hcontra; [|done].
    apply Hr. destruct (proj1 Hr' eq_refl) as (e & He & H). exists e. by rewrite Hsame.
Qed.

Lemma forParts_order_irrelevant_witness :
  forParts Sample.typescript 24 Sample.checker [Sample.tTrue; Sample.tError]
  = forParts Sample.typescript 24 Sample.checker [Sample.tError; Sample.tTrue; Sample.tError].
Proof.
  apply (forParts_order_irrelevant Sample.typescript Sample.checker Sample.universe).
  - exact sample_universe_closed.
  - intros p Hp. apply sample_universe_all.
    apply elem_of_cons in Hp as [->|Hp]; [vm_compute; reflexivity|].
    apply list_elem_of_singleton in Hp as ->. vm_compute. reflexivity.
  - vm_compute. lia.
  - intros p. rewrite !elem_of_cons, !elem_of_nil. tauto.
Defined.

(** ** Further properties of the walk *)

Section WalkLogMore.

Context (ts : TS.Enums) (checker : TS.TypeChecker).

Lemma forBases_log_within (U : gset Type_) recL bases seen r seen' log :
  (∀ b s r' s' l, b ∈ U -> recL b s = Some (r', s', l) -> ∀ x, x ∈ l -> x ∈ U) ->
  (∀ b, b ∈ bases -> b ∈ U) ->
  forBases_log recL bases seen = Some (r, seen', log) ->
  ∀ x, x ∈ log -> x ∈ U.
Proof.
  intros Hrec. revert seen r seen' log.
  induction bases as [|b bases IH]; intros seen r seen' log HU; simpl.
  - by intros [= _ _ <-] x ?%elem_of_nil.
  - destruct (recL b seen) as [[[[] s] l]|] eqn:Hb; [| |done].
    + intros [= _ _ <-]. eapply Hrec; [|exact Hb]. apply HU. left.
    + destruct (forBases_log recL bases s) as [[[r' s'] l']|] eqn:Hrest; [|done].
      intros [= _ _ <-] x [Hx|Hx]%elem_of_app.
      * eapply Hrec; [|exact Hb|exact Hx]. apply HU. left.
      * eapply IH; [|exact Hrest|exact Hx]. intros b' Hb'. apply HU. by right.
Qed.

Lemma isErrorInterfaceOrBase_log_within (U : gset Type_) (fuel : nat) t seen r seen' log :
  closedUnderBases checker U -> t ∈ U ->
  isErrorInterfaceOrBase_log ts fuel checker t seen = Some (r, seen', log) ->
  ∀ x, x ∈ log -> x ∈ U.
Proof.
  intros Hclosed. revert t seen r seen' log.
  induction fuel as [|fuel IH]; intros t seen r seen' log HtU; [done|].
  cbn [isErrorInterfaceOrBase_log].
  assert (∀ x, x ∈ [t] -> x ∈ U) as Hone by (by intros x ->%list_elem_of_singleton).
  destruct (bool_decide _); [by intros [= _ _ <-] x ?%elem_of_nil|].
  destruct (match TS.getSymbol _ with Some _ => _ | None => _ end);
    [by intros [= _ _ <-]|].
  destruct (truthy (Z.land (TS.flags _) _)); [|by intros [= _ _ <-]].
  destruct (truthy (Z.land (TS.objectFlags _) _)); [|by intros [= _ _ <-]].
  destruct (forBases_log _ _ _) as [[[r' s'] l']|] eqn:Hb; [|done].
  intros [= _ _ <-] x [->|Hx]%elem_of_cons; [done|].
  eapply (forBases_log_within U); [|  |exact Hb|exact Hx].
  - intros b s r'' s'' l Hb' Hw. by apply (IH b s r'' s'' l).
  - intros b Hb'. apply (Hclosed t b HtU). by apply baseOf_default.
Qed.

Lemma stopsAtError_app r log log' :
  stopsAtError checker false log -> stopsAtError checker r log' ->
  stopsAtError checker r (log ++ log').
Proof.
  intros Hlog. destruct r; simpl.
  - intros (l & e & -> & He & Hl). exists (log ++ l), e.
    split; [by rewrite app_assoc|]. split; [done|].
    intros x [Hx|Hx]%elem_of_app; [by apply Hlog|by apply Hl].
  - intros Hlog' x [Hx|Hx]%elem_of_app; [by apply Hlog|by apply Hlog'].
Qed.

Lemma forBases_log_stops recL bases seen r seen' log :
  (∀ b s r' s' l, recL b s = Some (r', s', l) -> stopsAtError checker r' l) ->
  forBases_log recL bases seen = Some (r, seen', log) -> stopsAtError checker r log.
Proof.
  intros Hrec. revert seen r seen' log.
  induction bases as [|b bases IH]; intros seen r seen' log; simpl.
  - by intros [= <- _ <-] x ?%elem_of_nil.
  - destruct (recL b seen) as [[[[] s] l]|] eqn:Hb; [| |done].
    + intros [= <- _ <-]. by apply (Hrec _ _ _ _ _ Hb).
    + destruct (forBases_log recL bases s) as [[[r' s'] l']|] eqn:Hrest; [|done].
      intros [= <- _ <-]. apply stopsAtError_app.
      * by apply (Hrec _ _ _ _ _ Hb).
      * by apply (IH _ _ _ _ Hrest).
Qed.

End WalkLogMore.

(** X4. On a set of handles that the base types do not leave, a walk
    inspects only handles of that set that were not in [seen], each once:
    the number of inspections of one walk is at most the number of
    handles of the set outside [seen]. *)
Theorem walk_inspections_bounded
    (ts : TS.Enums) (checker : TS.TypeChecker) (U : gset Type_) (fuel : nat)
    (t : Type_) (seen seen' : gset Type_) (r : bool) (log : list Type_) :
  closedUnderBases checker U -> t ∈ U ->
  isErrorInterfaceOrBase_log ts fuel checker t seen = Some (r, seen', log) ->
  NoDup log
  ∧ (∀ x, x ∈ log -> x ∈ U ∧ x ∉ seen)
  ∧ length log <= size (U ∖ seen)
  ∧ seen' ∖ seen ⊆ U.
Proof.
  intros Hclosed HtU Hlog.
  pose proof (isErrorInterfaceOrBase_log_within ts checker U _ _ _ _ _ _ Hclosed HtU Hlog)
    as HinU.
  destruct (isErrorInterfaceOrBase_log_logged ts checker _ _ _ _ _ _ Hlog)
    as (Hnd & Hfresh & Hseen).
  split; [done|]. split; [by auto|]. split.
  - rewrite <- (size_list_to_set (C := gset Type_) log Hnd).
    apply subseteq_size. intros x Hx%elem_of_list_to_set.
    apply elem_of_difference. auto.
  - rewrite Hseen. intros x Hx.
    apply elem_of_difference in Hx as [[Hx|Hx%elem_of_list_to_set]%elem_of_union Hnot];
      [done|by apply HinU].
Qed.

Lemma walk_inspections_bounded_witness :
  NoDup [Sample.tA; Sample.tB]
  ∧ (∀ x, x ∈ [Sample.tA; Sample.tB] -> x ∈ Sample.universe ∧ x ∉ (∅ : gset Type_))
  ∧ length [Sample.tA; Sample.tB] <= size (Sample.universe ∖ ∅)
  ∧ list_to_set [Sample.tA; Sample.tB] ∖ ∅ ⊆ Sample.universe.
Proof.
  apply (walk_inspections_bounded Sample.typescript Sample.checker Sample.universe 3
           Sample.tA ∅ (list_to_set [Sample.tA; Sample.tB]) false).
  - exact sample_universe_closed.
  - apply sample_universe_all. vm_compute. reflexivity.
  - vm_compute. reflexivity.
Defined.

(** X5. A walk stops at the first type named ['Error'] that it inspects:
    when it answers true, the last handle it inspected is named ['Error']
    and no handle inspected before is; when it answers false, no handle
    it inspected is named ['Error']. *)
Theorem walk_stops_at_first_error
    (ts : TS.Enums) (checker : TS.TypeChecker) (fuel : nat)
    (t : Type_) (seen seen' : gset Type_) (r : bool) (log : list Type_) :
  isErrorInterfaceOrBase_log ts fuel checker t seen = Some (r, seen', log) ->
  stopsAtError checker r log.
Proof.
  revert t seen seen' r log.
  induction fuel as [|fuel IH]; intros t seen seen' r log; [done|].
  cbn [isErrorInterfaceOrBase_log].
  destruct (bool_decide _); [by intros [= <- _ <-] x ?%elem_of_nil|].
  assert (isNamedError checker t = false -> stopsAtError checker false [t]) as Hone.
  { intros Hn x ->%list_elem_of_singleton. done. }
  unfold isNamedError in *.
  destruct (match TS.getSymbol _ with Some _ => _ | None => _ end) eqn:Hname.
  { intros [= <- _ <-]. exists [], t. split; [done|]. split; [done|].
    by intros x ?%elem_of_nil. }
  destruct (truthy (Z.land (TS.flags _) _)); [|intros [= <- _ <-]; auto].
  destruct (truthy (Z.land (TS.objectFlags _) _)); [|intros [= <- _ <-]; auto].
  destruct (forBases_log _ _ _) as [[[r' s'] l']|] eqn:Hb; [|done].
  intros [= <- _ <-].
  apply (stopsAtError_app checker r' [t] l'); [auto|].
  eapply forBases_log_stops; [|exact Hb]. intros b s r'' s'' l. apply IH.
Qed.

Lemma walk_stops_at_first_error_witness :
  stopsAtError Sample.checker true [Sample.tMyError; Sample.tError].
Proof.
  apply (walk_stops_at_first_error Sample.typescript Sample.checker 2 Sample.tMyError
           ∅ (list_to_set [Sample.tMyError; Sample.tError])).
  vm_compute. reflexivity.
Defined.

(** ** Further properties of the classifier and the listener *)

(** X6. What [getStandaloneCall] extracts is always a call expression:
    the statement expression itself when it is not awaited, the operand
    of the await otherwise.  Classifying the extracted call again gives
    that call, not awaited. *)
Theorem getStandaloneCall_extracts_call (expr : Expression) (extracted : StandaloneCall) :
  getStandaloneCall expr = Some extracted ->
  type (call extracted) = "CallExpression"
  ∧ (if isAwait extracted
     then expr = AwaitExpression (Some (call extracted))
     else expr = call extracted)
  ∧ getStandaloneCall (call extracted)
    = Some {| call := call extracted; isAwait := false |}.
Proof.
  destruct expr as [r c a| [[r c a| | | | | | | | | |]|] | | | | | | | | |];
    try discriminate; by intros [= <-].
Qed.

Lemma getStandaloneCall_extracts_call_witness :
  type (Sample.callOf "g" Sample.tPromise) = "CallExpression"
  ∧ AwaitExpression (Some (Sample.callOf "g" Sample.tPromise))
    = AwaitExpression (Some (Sample.callOf "g" Sample.tPromise))
  ∧ getStandaloneCall (Sample.callOf "g" Sample.tPromise)
    = Some {| call := Sample.callOf "g" Sample.tPromise; isAwait := false |}.
Proof.
  apply (getStandaloneCall_extracts_call
           (AwaitExpression (Some (Sample.callOf "g" Sample.tPromise)))
           {| call := Sample.callOf "g" Sample.tPromise; isAwait := true |}).
  reflexivity.
Defined.

(** X7. A statement that [getStandaloneCall] does not classify is left
    alone: the listener returns the reports as they are, for every
    checker, without asking it anything.  This holds in particular when
    the call is wrapped: an optional call ([ChainExpression]), a non-null
    assertion, a type assertion, an await of an await, a sequence or a
    conditional expression, whatever the wrapped call returns. *)
Theorem unclassified_statement_ignored
    (ts : TS.Enums) (fuel : nat) (services : ParserServices)
    (stmt : ExpressionStatement) (reports : list Diagnostic) :
  (getStandaloneCall (expression stmt) = None
   ∨ (∃ inner, expression stmt = ChainExpression inner)
   ∨ (∃ inner, expression stmt = TSNonNullExpression inner)
   ∨ (∃ inner, expression stmt = TSAsExpression inner)
   ∨ (∃ inner, expression stmt = AwaitExpression (Some (AwaitExpression inner)))
   ∨ (∃ inner, expression stmt = SequenceExpression inner)
   ∨ (∃ a b c, expression stmt = ConditionalExpression a b c)) ->
  ExpressionStatement_listener ts fuel services stmt reports = Some reports.
Proof.
  intros Hshape.
  assert (getStandaloneCall (expression stmt) = None) as Hnone.
  { destruct Hshape as [H|[[? ->]|[[? ->]|[[? ->]|[[? ->]|[[? ->]|(? & ? & ? & ->)]]]]]];
      done. }
  unfold ExpressionStatement_listener. by rewrite Hnone.
Qed.

Lemma unclassified_statement_ignored_witness :
  ExpressionStatement_listener Sample.typescript 0 Sample.services
    (Sample.statement (ChainExpression (Sample.callOf "f" Sample.tError))) []
  = Some [].
Proof.
  apply (unclassified_statement_ignored Sample.typescript 0 Sample.services
           (Sample.statement (ChainExpression (Sample.callOf "f" Sample.tError))) []).
  right. left. exists (Sample.callOf "f" Sample.tError). reflexivity.
Defined.

(** X8. Whenever the listener returns, it has left the earlier reports
    untouched and added at most one diagnostic; the diagnostic is
    anchored at the statement node itself and carries a message id that
    [meta.messages] declares. *)
Theorem listener_appends_one_declared
    (ts : TS.Enums) (fuel : nat) (services : ParserServices)
    (stmt : ExpressionStatement) (reports reports' : list Diagnostic) :
  ExpressionStatement_listener ts fuel services stmt reports = Some reports' ->
  reports' = reports
  ∨ ∃ d, reports' = reports ++ [d]
         ∧ node d = stmt
         ∧ is_Some (meta_messages !! messageId d).
Proof.
  unfold ExpressionStatement_listener.
  destruct (getStandaloneCall _) as [extracted|]; [|intros [= <-]; by left].
  destruct (isErrorOrSubclass _ _ _ _) as [[]|]; [|intros [= <-]; by left|done].
  intros [= <-]. right. eexists. split; [done|]. split; [done|].
  simpl. unfold meta_messages. rewrite lookup_singleton_eq. by eexists.
Qed.

Lemma listener_appends_one_declared_witness :
  [requireErrorCheckAt (Sample.statement (Sample.callOf "f" Sample.tErrorOrTrue))] = []
  ∨ ∃ d, [requireErrorCheckAt (Sample.statement (Sample.callOf "f" Sample.tErrorOrTrue))]
         = [] ++ [d]
         ∧ node d = Sample.statement (Sample.callOf "f" Sample.tErrorOrTrue)
         ∧ is_Some (meta_messages !! messageId d).
Proof.
  apply (listener_appends_one_declared Sample.typescript 3 Sample.services
           (Sample.statement (Sample.callOf "f" Sample.tErrorOrTrue)) []).
  vm_compute. reflexivity.
Defined.

(** The matcher does not use the operations for awaited types. *)

Section AwaitOperations.

Context (ts : TS.Enums) (checker : TS.TypeChecker)
        (awaited promised : option (Type_ -> option Type_)).

Lemma flattenTypes_setAwaitOperations (fuel : nat) t :
  flattenTypes ts fuel (setAwaitOperations awaited promised checker) t
  = flattenTypes ts fuel checker t.
Proof.
  revert t. induction fuel as [|fuel IH]; intros t; [done|].
  assert (∀ l, flatMap (flattenTypes ts fuel (setAwaitOperations awaited promised checker)) l
               = flatMap (flattenTypes ts fuel checker) l) as Hmembers.
  { intros l. induction l as [|x l IHl]; simpl; [done|]. by rewrite IH, IHl. }
  cbn [flattenTypes]. rewrite Hmembers. simpl.
  destruct (TS.isUnion _); [done|]. destruct (TS.isIntersection _); [done|].
  destruct (truthy _); [|done].
  destruct (TS.getBaseConstraintOfType checker t); [apply IH|done].
Qed.

Lemma isErrorInterfaceOrBase_setAwaitOperations (fuel : nat) t seen :
  isErrorInterfaceOrBase ts fuel (setAwaitOperations awaited promised checker) t seen
  = isErrorInterfaceOrBase ts fuel checker t seen.
Proof.
  revert t seen. induction fuel as [|fuel IH]; intros t seen; [done|].
  assert (∀ l s,
            forBases (isErrorInterfaceOrBase ts fuel
                        (setAwaitOperations awaited promised checker)) l s
            = forBases (isErrorInterfaceOrBase ts fuel checker) l s) as Hbases.
  { intros l. induction l as [|b l IHl]; intros s; simpl; [done|].
    rewrite IH. by destruct (isErrorInterfaceOrBase ts fuel checker b s) as [[[] s']|]. }
  cbn [isErrorInterfaceOrBase]. by rewrite Hbases.
Qed.

Lemma isErrorOrSubclass_setAwaitOperations (fuel : nat) t :
  isErrorOrSubclass ts fuel (setAwaitOperations awaited promised checker) t
  = isErrorOrSubclass ts fuel checker t.
Proof.
  unfold isErrorOrSubclass. rewrite flattenTypes_setAwaitOperations.
  destruct (flattenTypes ts fuel checker t) as [parts|]; [|done].
  induction parts as [|p parts IH]; simpl; [done|].
  by rewrite isErrorInterfaceOrBase_setAwaitOperations, IH.
Qed.

End AwaitOperations.

(** X9. A call that is not awaited is judged by the type of the call as
    it is: whichever operations for awaited types the checker has, or
    none, the outcome of the listener is the same.  A call that returns
    a promise of an error and is not awaited is therefore judged as the
    promise. *)
Theorem unawaited_call_ignores_await_operations
    (ts : TS.Enums) (fuel : nat) (services : ParserServices)
    (stmt : ExpressionStatement) (extracted : StandaloneCall)
    (awaited promised : option (Type_ -> option Type_)) (reports : list Diagnostic) :
  getStandaloneCall (expression stmt) = Some extracted ->
  isAwait extracted = false ->
  ExpressionStatement_listener ts fuel
    (setChecker (setAwaitOperations awaited promised (program_getTypeChecker services))
       services)
    stmt reports
  = ExpressionStatement_listener ts fuel services stmt reports.
Proof.
  intros Hc Hawait. unfold ExpressionStatement_listener. rewrite Hc, Hawait. simpl.
  by rewrite isErrorOrSubclass_setAwaitOperations.
Qed.

Lemma unawaited_call_ignores_await_operations_witness :
  ExpressionStatement_listener Sample.typescript 3
    (setChecker (setAwaitOperations None None (program_getTypeChecker Sample.services))
       Sample.services)
    (Sample.statement (Sample.callOf "g" Sample.tPromise)) []
  = ExpressionStatement_listener Sample.typescript 3 Sample.services
      (Sample.statement (Sample.callOf "g" Sample.tPromise)) [].
Proof.
  apply (unawaited_call_ignores_await_operations Sample.typescript 3 Sample.services
           (Sample.statement (Sample.callOf "g" Sample.tPromise))
           {| call := Sample.callOf "g" Sample.tPromise; isAwait := false |}).
  - reflexivity.
  - reflexivity.
Defined.

Example unawaited_promise_of_error_not_reported :
  ExpressionStatement_listener Sample.typescript 3 Sample.services
    (Sample.statement (Sample.callOf "g" Sample.tPromise)) []
  = Some [].
Proof. vm_compute. reflexivity. Qed.

(** ** The order of the base types *)

Lemma reachesError_sameBases (ts : TS.Enums) (c1 c2 : TS.TypeChecker) (t : Type_) :
  sameBasesUpToOrder c1 c2 -> reachesError ts c1 t -> reachesError ts c2 t.
Proof.
  intros [Hobj Hbases]. induction 1 as [t Hname|t b Hci Hb _ IH].
  - apply reachesError_here. unfold isNamedError in *. by rewrite <- Hobj.
  - apply (reachesError_base ts c2 t b); [|by apply Hbases|done].
    unfold isClassOrInterface in *. by rewrite <- Hobj.
Qed.

Lemma sameBasesUpToOrder_sym (c1 c2 : TS.TypeChecker) :
  sameBasesUpToOrder c1 c2 -> sameBasesUpToOrder c2 c1.
Proof. intros [Hobj Hbases]. split; [done|]. intros t b. by rewrite Hbases. Qed.

(** X10. The verdict of a walk does not depend on the order in which the
    checker lists the base types of a type: on finitely many handles and
    with fuel beyond their number, two checkers that differ only in the
    order or repetition of the declared base types give walks that both
    return, with the same verdict. *)
Theorem walk_order_of_bases_irrelevant
    (ts : TS.Enums) (c1 c2 : TS.TypeChecker) (U : gset Type_) (fuel : nat) (t : Type_) :
  sameBasesUpToOrder c1 c2 ->
  closedUnderBases c1 U -> t ∈ U -> size U < fuel ->
  ∃ r seen1 seen2,
    isErrorInterfaceOrBase ts fuel c1 t ∅ = Some (r, seen1)
    ∧ isErrorInterfaceOrBase ts fuel c2 t ∅ = Some (r, seen2).
Proof.
  intros Hsame Hclosed HtU Hsize.
  assert (closedUnderBases c2 U) as Hclosed2.
  { intros x b Hx Hb. apply (Hclosed x b Hx). by apply (proj2 Hsame). }
  destruct (isErrorInterfaceOrBase_decides ts c1 U fuel t) as (r1 & s1 & Hw1 & Hr1); [done..|].
  destruct (isErrorInterfaceOrBase_decides ts c2 U fuel t) as (r2 & s2 & Hw2 & Hr2); [done..|].
  exists r1, s1, s2. split; [done|]. rewrite Hw2. do 2 f_equal.
  destruct r1, r2; try done.
  - assert (false = true) as Hcontra; [|done].
    apply Hr2. apply (reachesError_sameBases ts c1 c2); [done|]. by apply Hr1.
  - assert (false = true) as Hcontra; [|done].
    apply Hr1. apply (reachesError_sameBases ts c2 c1);
      [by apply sameBasesUpToOrder_sym|]. by apply Hr2.
Qed.

Lemma sample_twoBases_same : sameBasesUpToOrder (Sample.twoBases true) (Sample.twoBases false).
Proof.
  split; [done|]. intros t b. unfold baseOf, Sample.twoBases. cbn [TS.getBaseTypes].
  destruct (Pos.eqb t Sample.tMyError); [|reflexivity].
  split; intros (bases & [= <-] & Hb); eexists; (split; [reflexivity|]);
    rewrite !elem_of_cons in *; tauto.
Qed.

Lemma walk_order_of_bases_irrelevant_witness :
  ∃ r seen1 seen2,
    isErrorInterfaceOrBase Sample.typescript 24 (Sample.twoBases true) Sample.tMyError ∅
    = Some (r, seen1)
    ∧ isErrorInterfaceOrBase Sample.typescript 24 (Sample.twoBases false) Sample.tMyError ∅
      = Some (r, seen2).
Proof.
  apply (walk_order_of_bases_irrelevant Sample.typescript
           (Sample.twoBases true) (Sample.twoBases false) Sample.universe).
  - exact sample_twoBases_same.
  - apply closedUnderBasesb_correct. vm_compute. reflexivity.
  - apply sample_universe_all. vm_compute. reflexivity.
  - vm_compute. lia.
Defined.

Example twoBases_logs_differ :
  isErrorInterfaceOrBase_log Sample.typescript 4 (Sample.twoBases true) Sample.tMyError ∅
  = Some (true, list_to_set [Sample.tMyError; Sample.tError],
          [Sample.tMyError; Sample.tError])
  ∧ isErrorInterfaceOrBase_log Sample.typescript 4 (Sample.twoBases false) Sample.tMyError ∅
    = Some (true, list_to_set [Sample.tMyError; Sample.tA; Sample.tB; Sample.tError],
            [Sample.tMyError; Sample.tA; Sample.tB; Sample.tError]).
Proof. split; vm_compute; reflexivity. Qed.

(** ** What is reported, in terms of the type graph *)

(** X11. Where the flattening of the resolved type returns and the base
    types stay within finitely many handles, the listener reports a
    classified statement exactly when some leaf below the resolved type
    carries none of the flags [Any], [Unknown], [Never] and has an
    apparent type that reaches a type named ['Error'] through base types
    of class or interface types; otherwise it returns the reports as
    they are. *)
Theorem report_iff_error_leaf
    (ts : TS.Enums) (services : ParserServices) (stmt : ExpressionStatement)
    (extracted : StandaloneCall) (parts : list Type_) (U : gset Type_)
    (fuel0 fuel : nat) (reports : list Diagnostic) :
  let checker := program_getTypeChecker services in
  let rt := resolveResultType services (call extracted) (isAwait extracted) in
  let errorLeaf :=
    ∃ leaf, leafOf ts checker rt leaf
            ∧ isInformative ts checker leaf = true
            ∧ reachesError ts checker (TS.getApparentType checker leaf) in
  getStandaloneCall (expression stmt) = Some extracted ->
  flattenTypes ts fuel0 checker rt = Some parts ->
  closedUnderBases checker U ->
  (∀ p, p ∈ parts -> TS.getApparentType checker p ∈ U) ->
  fuel0 <= fuel -> size U < fuel ->
  (ExpressionStatement_listener ts fuel services stmt reports
   = Some (reports ++ [requireErrorCheckAt stmt]) ↔ errorLeaf)
  ∧ (ExpressionStatement_listener ts fuel services stmt reports = Some reports
     ↔ ¬ errorLeaf).
Proof.
  intros checker rt errorLeaf Hc Hflat Hclosed HU Hle Hsize.
  destruct (isErrorOrSubclass_decides ts checker U fuel0 fuel rt parts)
    as (r & Hr & Hiff); [done..|].
  assert (r = true ↔ errorLeaf) as Hleaf.
  { rewrite Hiff. unfold errorLeaf. split; intros (leaf & Hin & H); exists leaf.
    - split; [|done]. by apply (flattenTypes_leafOf ts checker fuel0 rt parts leaf Hflat).
    - split; [|done]. by apply (flattenTypes_leafOf ts checker fuel0 rt parts leaf Hflat). }
  rewrite (listener_classified ts checker fuel services stmt extracted reports eq_refl Hc).
  fold rt. unfold mayBeError. rewrite Hr.
  assert (reports ++ [requireErrorCheckAt stmt] ≠ reports) as Hne.
  { intros Heq. apply (f_equal length) in Heq. rewrite length_app in Heq.
    simpl in Heq. lia. }
  destruct r.
  - split.
    + split; [intros _; by apply Hleaf|done].
    + split; [intros [= Heq]; by destruct Hne|]. intros Hnot. destruct Hnot. by apply Hleaf.
  - split.
    + split; [intros [= Heq]; by destruct Hne|]. intros Hl%Hleaf. done.
    + split; [|done]. intros _ Hl%Hleaf. done.
Qed.

Lemma report_iff_error_leaf_witness :
  (ExpressionStatement_listener Sample.typescript 24 Sample.services
     (Sample.statement (Sample.callOf "k" Sample.tU)) []
   = Some ([] ++ [requireErrorCheckAt (Sample.statement (Sample.callOf "k" Sample.tU))])
   ↔ ∃ leaf, leafOf Sample.typescript Sample.checker Sample.tU leaf
             ∧ isInformative Sample.typescript Sample.checker leaf = true
             ∧ reachesError Sample.typescript Sample.checker
                 (TS.getApparentType Sample.checker leaf))
  ∧ (ExpressionStatement_listener Sample.typescript 24 Sample.services
       (Sample.statement (Sample.callOf "k" Sample.tU)) []
     = Some []
     ↔ ¬ ∃ leaf, leafOf Sample.typescript Sample.checker Sample.tU leaf
                 ∧ isInformative Sample.typescript Sample.checker leaf = true
                 ∧ reachesError Sample.typescript Sample.checker
                     (TS.getApparentType Sample.checker leaf)).
Proof.
  apply (report_iff_error_leaf Sample.typescript Sample.services
           (Sample.statement (Sample.callOf "k" Sample.tU))
           {| call := Sample.callOf "k" Sample.tU; isAwait := false |}
           [Sample.tMyError] Sample.universe 2 24 []).
  - reflexivity.
  - vm_compute. reflexivity.
  - exact sample_universe_closed.
  - intros p Hp. apply sample_universe_all.
    apply list_elem_of_singleton in Hp as ->. vm_compute. reflexivity.
  - lia.
  - vm_compute. lia.
Defined.
